(** * Planning-data loaders of [main.py]

    A shallow embedding of the four loaders ([DemandLoader],
    [CapacityLoader], [TranstimeLoader], [DowntimeLoader]) and of the
    [FileInput] model they construct, with the properties of the
    natural-language specification stated over it.

    Python dictionaries are [gmap]s, Python sets are [gset]s, a pandas row
    (a [Series]) is a finite map from column labels to cells, and a
    [DataFrame] is the list of its rows in file order.  Exceptions and the
    calls that leave the program (filesystem stat, the two pandas readers)
    are threaded through a small trace-and-error monad. *)

From stdpp Require Import base option list gmap strings.
From Stdlib Require Import Ascii.

Local Open Scope string_scope.
Local Open Scope list_scope.

(** ** Cells, rows and frames *)

(** A parsed cell.  Strings and integers are the values that Python
    compares by content when they are used as dictionary keys or set
    members, which is all the loaders do with them.  Floating-point cells
    (and with them the missing-value marker NaN, which is not equal to
    itself) are left out. *)
Inductive cell : Type :=
  | CStr (s : string)
  | CInt (z : Z).

#[global] Instance cell_eq_dec : EqDecision cell.
Proof. solve_decision. Defined.

#[global] Instance cell_countable : Countable cell.
Proof.
  refine (inj_countable'
            (λ c, match c with CStr s => inl s | CInt z => inr z end)
            (λ x, match x with inl s => CStr s | inr z => CInt z end) _).
  by intros [].
Defined.

(** [row['col']] reads a [Series] by label. *)
Abbreviation Series := (gmap string cell).

(** The rows of a frame, in file order, as [iterrows] yields them.  In
    pandas the rows of one frame all carry the frame's columns; the list
    allows more, and what is proved of every list of rows holds of those
    in particular. *)
Abbreviation DataFrame := (list (gmap string cell)).

(** ** Paths *)

(** A [pathlib.Path]: whether it is anchored at the root, and its
    components. *)
Record Path : Type := mkPath { absolute : bool; parts : list string }.

#[global] Instance Path_eq_dec : EqDecision Path.
Proof. solve_decision. Defined.

(** [Path.name]: the final component, empty when there is none. *)
Definition name (p : Path) : string := List.last (parts p) "".

(** [str.rfind('.')]: index of the last dot. *)
Fixpoint rfind_dot (s : string) : option nat :=
  match s with
  | EmptyString => None
  | String c s' =>
      match rfind_dot s' with
      | Some i => Some (S i)
      | None => if Ascii.eqb c "."%char then Some 0 else None
      end
  end.

(** [s[i:]]. *)
Fixpoint drop_string (i : nat) (s : string) : string :=
  match i, s with
  | O, _ => s
  | S i', String _ s' => drop_string i' s'
  | S _, EmptyString => EmptyString
  end.

(** [Path.suffix]: the text from the last dot of the name on, provided the
    dot is neither the first nor the last character of the name. *)
Definition suffix (p : Path) : string :=
  let n := name p in
  match rfind_dot n with
  | Some i =>
      if (0 <? i)%nat && (i <? String.length n - 1)%nat
      then drop_string i n else ""
  | None => ""
  end.

(** [str.lower()] on the ASCII letters. *)
Definition lower_ascii (c : ascii) : ascii :=
  let n := nat_of_ascii c in
  if (65 <=? n)%nat && (n <=? 90)%nat then ascii_of_nat (n + 32) else c.

Fixpoint lower (s : string) : string :=
  match s with
  | EmptyString => EmptyString
  | String c s' => String (lower_ascii c) (lower s')
  end.

(** ** Exceptions, outside calls and the monad *)

Inductive exn : Type :=
  | ValidationError (errors : list string)  (* pydantic, field validation *)
  | ValueError (msg : string)               (* raised by this program *)
  | KeyError (key : cell)                   (* [d[key]], key absent *)
  | FileNotFoundError (p : Path)            (* a reader opening the path *)
  | ParserError.                            (* a reader rejecting content *)

(** Calls that leave the program. *)
Inductive Event : Type :=
  | Exists (p : Path)      (* [Path.exists] *)
  | ReadCsv (p : Path)     (* [pd.read_csv] *)
  | ReadExcel (p : Path).  (* [pd.read_excel] *)

(** A computation: the outside calls it made, in order, and either the
    exception that ended it or its value. *)
Definition M (A : Type) : Type := list Event * (exn + A).

Definition raise {A} (e : exn) : M A := ([], inl e).

#[global] Instance M_ret : MRet M := λ A a, ([], inr a).

#[global] Instance M_bind : MBind M := λ A B f m,
  match m with
  | (t, inl e) => (t, inl e)
  | (t, inr a) => let '(t', r) := f a in (t ++ t', r)
  end.

(** The outside world: the files that exist, with their content, and what
    the two pandas parsers make of a content ([None]: the parser raises). *)
Record World : Type := mkWorld {
  fs : Path → option string;
  parse_csv : string → option (list (gmap string cell));
  parse_excel : string → option (list (gmap string cell));
}.

Section Program.

Context (w : World).

(** [value.exists()] *)
Definition path_exists (p : Path) : M bool := ([Exists p], inr (bool_decide (is_Some (fs w p)))).

(** What a reader returns for a path. *)
Definition reader (parse : string → option DataFrame) (p : Path) : exn + DataFrame :=
  match fs w p with
  | None => inl (FileNotFoundError p)
  | Some content =>
      match parse content with
      | None => inl ParserError
      | Some df => inr df
      end
  end.

(** [pd.read_csv(path)] and [pd.read_excel(path)] *)
Definition read_csv (p : Path) : M DataFrame := ([ReadCsv p], reader (parse_csv w) p).
Definition read_excel (p : Path) : M DataFrame := ([ReadExcel p], reader (parse_excel w) p).

(** [row[label]] *)
Definition getitem (row : Series) (label : string) : M cell :=
  match row !! label with
  | Some c => mret c
  | None => raise (KeyError (CStr label))
  end.

(** [for _, row in df.iterrows(): body], the loop variable being the
    table under construction. *)
Fixpoint for_rows {T} (rows : DataFrame) (body : T → Series → M T) (table : T) : M T :=
  match rows with
  | [] => mret table
  | row :: rest => table' ← body table row; for_rows rest body table'
  end.

(** ** [FileInput] *)

(** [str(path)] *)
Definition path_str (p : Path) : string :=
  match absolute p, parts p with
  | false, [] => "."
  | anchored, components => (if anchored then "/" else "") +:+ String.concat "/" components
  end.

Definition unsupported_format : string :=
  "Unsupported file format. Please provide a CSV or Excel file.".

(** The suffixes [validate_file_path] lets through. *)
Definition accepted_suffixes : gset string := {[ ".csv"; ".xlsx" ]}.

(** [FileInput.validate_file_path] *)
Definition validate_file_path (value : Path) : M Path :=
  found ← path_exists value;
  if negb found then
    raise (ValueError ("File '" +:+ path_str value +:+ "' does not exist."))
  else if bool_decide (lower (suffix value) ∉ accepted_suffixes) then
    raise (ValueError unsupported_format)
  else mret value.

(** pydantic reports a [ValueError] raised by a field validator as a
    [ValidationError] of the model. *)
Definition as_validation_error {A} (m : M A) : M A :=
  match m with
  | (t, inl (ValueError msg)) => (t, inl (ValidationError [msg]))
  | _ => m
  end.

(** [BaseModel.__init__] on a field whose value already has the annotated
    type: the value goes through the validators the class has registered
    for the field, in order. *)
Fixpoint run_validators (validators : list (Path → M Path)) (value : Path) : M Path :=
  match validators with
  | [] => mret value
  | v :: rest => value' ← as_validation_error (v value); run_validators rest value'
  end.

Record FileInput : Type := mkFileInput { file_path : Path }.

(** The validators registered for [file_path].  A method is registered by
    pydantic's validator decorator; [validate_file_path] carries
    [classmethod] only, so the class registers none. *)
Definition FileInput_validators : list (Path → M Path) := [].

(** [FileInput(file_path=path)] *)
Definition FileInput_init (path : Path) : M FileInput :=
  value ← run_validators FileInput_validators path;
  mret (mkFileInput value).

(** ** Dictionaries *)

(** [d.setdefault(k, v)]: the dictionary afterwards and the value
    returned. *)
Definition setdefault `{Countable K} {V} (d : gmap K V) (k : K) (v : V) : gmap K V * V :=
  match d !! k with
  | Some x => (d, x)
  | None => (<[k := v]> d, v)
  end.

(** [d[k]] on a dictionary keyed by cells. *)
Definition dict_getitem {V} (d : gmap cell V) (k : cell) : M V :=
  match d !! k with
  | Some x => mret x
  | None => raise (KeyError k)
  end.

(** ** [DemandLoader] *)

Record DemandLoader : Type := mkDemandLoader { demand_data : gmap cell (gmap cell cell) }.

(** Body of the loop of [load_demand_data]. *)
Definition demand_body (demand_data : gmap cell (gmap cell cell)) (row : Series)
  : M (gmap cell (gmap cell cell)) :=
  product_id ← getitem row "product_id";
  week_id ← getitem row "week_id";
  demand ← getitem row "demand";
  let '(demand_data, weeks) := setdefault demand_data product_id ∅ in
  mret (<[product_id := <[week_id := demand]> weeks]> demand_data).

(** The frame [demand_df] that [load_demand_data] builds its table from. *)
Definition demand_df (file_path : Path) : M DataFrame :=
  if decide (lower (suffix file_path) = ".csv")
  then read_csv file_path
  else read_excel file_path.

Definition load_demand_data (file_path : Path) : M (gmap cell (gmap cell cell)) :=
  rows ← demand_df file_path;
  for_rows rows demand_body ∅.

Definition DemandLoader_init (path : Path) : M DemandLoader :=
  input ← FileInput_init path;
  let validated_file_path := file_path input in
  table ← load_demand_data validated_file_path;
  mret (mkDemandLoader table).

(** ** [CapacityLoader] *)

Record CapacityLoader : Type := mkCapacityLoader { capacity_data : gmap cell (gmap cell cell) }.

Definition capacity_body (capacity_data : gmap cell (gmap cell cell)) (row : Series)
  : M (gmap cell (gmap cell cell)) :=
  machine_id ← getitem row "machine_id";
  product_id ← getitem row "product_id";
  week_cap ← getitem row "week_cap";
  let '(capacity_data, products) := setdefault capacity_data machine_id ∅ in
  mret (<[machine_id := <[product_id := week_cap]> products]> capacity_data).

(** The frame [capacity_df] that [load_capacity_data] builds its table from. *)
Definition capacity_df (file_path : Path) : M DataFrame :=
  if decide (lower (suffix file_path) = ".csv")
  then read_csv file_path
  else read_excel file_path.

Definition load_capacity_data (file_path : Path) : M (gmap cell (gmap cell cell)) :=
  rows ← capacity_df file_path;
  for_rows rows capacity_body ∅.

Definition CapacityLoader_init (path : Path) : M CapacityLoader :=
  input ← FileInput_init path;
  let validated_file_path := file_path input in
  table ← load_capacity_data validated_file_path;
  mret (mkCapacityLoader table).

(** ** [TranstimeLoader] *)

Record TranstimeLoader : Type :=
  mkTranstimeLoader { transtime_data : gmap cell (gmap (cell * cell) cell) }.

Definition transition_body (transition_times : gmap cell (gmap (cell * cell) cell))
    (row : Series) : M (gmap cell (gmap (cell * cell) cell)) :=
  machine_id ← getitem row "machine_Id";
  from_product ← getitem row "from";
  to_product ← getitem row "to";
  trans_time_days ← getitem row "trans_time_days";
  let transition_times :=
    if decide (machine_id ∉ dom transition_times)
    then <[machine_id := ∅]> transition_times
    else transition_times in
  pairs ← dict_getitem transition_times machine_id;
  let '(pairs, _) := setdefault pairs (from_product, to_product) trans_time_days in
  mret (<[machine_id := pairs]> transition_times).

(** The frame [transition_df] that [load_transition_times] builds its table from. *)
Definition transition_df (file_path : Path) : M DataFrame :=
  if decide (lower (suffix file_path) = ".csv") then read_csv file_path
  else if decide (lower (suffix file_path) = ".xlsx") then read_excel file_path
  else raise (ValueError unsupported_format).

Definition load_transition_times (file_path : Path) : M (gmap cell (gmap (cell * cell) cell)) :=
  rows ← transition_df file_path;
  for_rows rows transition_body ∅.

Definition TranstimeLoader_init (path : Path) : M TranstimeLoader :=
  input ← FileInput_init path;
  let validated_file_path := file_path input in
  table ← load_transition_times validated_file_path;
  mret (mkTranstimeLoader table).

(** ** [DowntimeLoader] *)

Record DowntimeLoader : Type := mkDowntimeLoader { downtime_data : gmap cell (gset cell) }.

Definition downtime_body (downtime_data : gmap cell (gset cell)) (row : Series)
  : M (gmap cell (gset cell)) :=
  machine_id ← getitem row "machine_Id";
  week_id ← getitem row "week_id";
  let '(downtime_data, machines) := setdefault downtime_data week_id ∅ in
  mret (<[week_id := {[machine_id]} ∪ machines]> downtime_data).

(** The frame [downtime_df] that [load_downtime_data] builds its table from. *)
Definition downtime_df (file_path : Path) : M DataFrame :=
  if decide (lower (suffix file_path) = ".csv") then read_csv file_path
  else if decide (lower (suffix file_path) = ".xlsx") then read_excel file_path
  else raise (ValueError unsupported_format).

Definition load_downtime_data (file_path : Path) : M (gmap cell (gset cell)) :=
  rows ← downtime_df file_path;
  for_rows rows downtime_body ∅.

Definition DowntimeLoader_init (path : Path) : M DowntimeLoader :=
  input ← FileInput_init path;
  let validated_file_path := file_path input in
  table ← load_downtime_data validated_file_path;
  mret (mkDowntimeLoader table).

End Program.

(** ** Sample worlds and files *)

Definition cs (s : string) : cell := CStr s.

Definition demand_rows : DataFrame :=
  [ {[ "product_id" := cs "product_1"; "week_id" := cs "week_1"; "demand" := CInt 10 ]};
    {[ "product_id" := cs "product_1"; "week_id" := cs "week_2"; "demand" := CInt 20 ]};
    {[ "product_id" := cs "product_2"; "week_id" := cs "week_1"; "demand" := CInt 5 ]} ].

Definition demand_xlsx : Path := mkPath false ["input"; "demand.xlsx"].

(** A world with one file, which both parsers read as [df]. *)
Definition table_world (p : Path) (df : DataFrame) : World :=
  mkWorld (λ q, if decide (q = p) then Some "table" else None)
          (λ _, Some df) (λ _, Some df).

(** A world with one file that neither parser can read. *)
Definition text_world (p : Path) : World :=
  mkWorld (λ q, if decide (q = p) then Some "some notes" else None)
          (λ _, None) (λ _, None).

(** A world without files. *)
Definition empty_world : World := mkWorld (λ _, None) (λ _, None) (λ _, None).

Definition demand_world : World := table_world demand_xlsx demand_rows.

Definition transition_row (m f t : string) (days : Z) : Series :=
  {[ "machine_Id" := cs m; "from" := cs f; "to" := cs t; "trans_time_days" := CInt days ]}.

(** The second row repeats the key of the first with another value. *)
Definition transition_rows : DataFrame :=
  [ transition_row "machine_1" "product_1" "product_2" 3;
    transition_row "machine_1" "product_1" "product_2" 7;
    transition_row "machine_2" "product_1" "product_2" 4 ].

Definition transition_csv : Path := mkPath false ["input"; "transition_times.csv"].

Definition transition_world : World := table_world transition_csv transition_rows.

Definition transition_table : gmap cell (gmap (cell * cell) cell) :=
  {[ cs "machine_1" := {[ (cs "product_1", cs "product_2") := CInt 3 ]};
     cs "machine_2" := {[ (cs "product_1", cs "product_2") := CInt 4 ]} ]}.

Definition demand_row (p wk : string) (d : Z) : Series :=
  {[ "product_id" := cs p; "week_id" := cs wk; "demand" := CInt d ]}.

(** The second row repeats the key of the first with another value. *)
Definition demand_rows_dup : DataFrame :=
  [ demand_row "product_1" "week_1" 10;
    demand_row "product_1" "week_1" 30;
    demand_row "product_2" "week_1" 5 ].

Definition demand_table_dup : gmap cell (gmap cell cell) :=
  {[ cs "product_1" := {[ cs "week_1" := CInt 30 ]};
     cs "product_2" := {[ cs "week_1" := CInt 5 ]} ]}.

Definition downtime_row (m wk : string) : Series :=
  {[ "machine_Id" := cs m; "week_id" := cs wk ]}.

Definition downtime_rows : DataFrame :=
  [ downtime_row "machine_1" "week_1";
    downtime_row "machine_2" "week_1";
    downtime_row "machine_1" "week_2" ].

Definition downtime_xlsx : Path := mkPath false ["input"; "scheduled_downtime.xlsx"].

Definition downtime_table : gmap cell (gset cell) :=
  {[ cs "week_1" := {[ cs "machine_1"; cs "machine_2" ]};
     cs "week_2" := {[ cs "machine_1" ]} ]}.

Definition capacity_rows : DataFrame :=
  [ {[ "machine_id" := cs "machine_1"; "product_id" := cs "product_1"; "week_cap" := CInt 100 ]};
    {[ "machine_id" := cs "machine_1"; "product_id" := cs "product_2"; "week_cap" := CInt 50 ]} ].

Definition capacity_xlsx : Path := mkPath false ["input"; "capacity.xlsx"].

(** A row without [week_id], and the frame holding just that row. *)
Definition demand_row_no_week : Series :=
  {[ "product_id" := cs "product_1"; "demand" := CInt 10 ]}.

Definition demand_rows_no_week : DataFrame := [ demand_row_no_week ].

Definition missing_csv : Path := mkPath false ["input"; "missing.csv"].
Definition notes_txt : Path := mkPath false ["input"; "notes.txt"].
Definition times_XLSX : Path := mkPath true ["data"; "TIMES.XLSX"].

(** ** Vocabulary of the statements *)

(** [r] is the first, respectively the last, row of [rows] that
    satisfies [P], in file order. *)
Definition first_row_with (P : Series → Prop) (rows : DataFrame) (r : Series) : Prop :=
  ∃ i : nat, rows !! i = Some r ∧ P r ∧ ∀ (j : nat) r', rows !! j = Some r' → P r' → (i ≤ j)%nat.

Definition last_row_with (P : Series → Prop) (rows : DataFrame) (r : Series) : Prop :=
  ∃ i : nat, rows !! i = Some r ∧ P r ∧ ∀ (j : nat) r', rows !! j = Some r' → P r' → (j ≤ i)%nat.

(** The effect of one successful pass through each loop body. *)
Definition put_last {K1 K2 V} `{Countable K1, Countable K2}
    (k1 : K1) (k2 : K2) (v : V) (t : gmap K1 (gmap K2 V)) : gmap K1 (gmap K2 V) :=
  <[k1 := <[k2 := v]> (default ∅ (t !! k1))]> t.

Definition put_first {K1 K2 V} `{Countable K1, Countable K2}
    (k1 : K1) (k2 : K2) (v : V) (t : gmap K1 (gmap K2 V)) : gmap K1 (gmap K2 V) :=
  let inner := default ∅ (t !! k1) in
  <[k1 := match inner !! k2 with Some _ => inner | None => <[k2 := v]> inner end]> t.

Definition put_member `{Countable K1, Countable K2}
    (k1 : K1) (x : K2) (t : gmap K1 (gset K2)) : gmap K1 (gset K2) :=
  <[k1 := {[x]} ∪ default ∅ (t !! k1)]> t.

(** The common shape of the four constructions once [FileInput] has
    returned the path: read a frame, fold its rows, wrap the table. *)
Definition construct {T L} (frame : M DataFrame) (body : T → Series → M T)
    (mk : T → L) (t0 : T) : M L :=
  table ← (rows ← frame; for_rows rows body t0); mret (mk table).

(** What a table of downtime sets has to do with the rows it was built
    from. *)
Definition downtime_of (rows : DataFrame) (t : gmap cell (gset cell)) : Prop :=
  (∀ week m, (∃ S, t !! week = Some S ∧ m ∈ S) ↔
             ∃ r, r ∈ rows ∧ r !! "week_id" = Some week ∧ r !! "machine_Id" = Some m)
  ∧ (∀ week S, t !! week = Some S → S ≠ ∅)
  ∧ Forall (λ r, is_Some (r !! "machine_Id") ∧ is_Some (r !! "week_id")) rows.

(** The exceptions of a row lookup. *)
Definition is_KeyError (e : exn) : Prop := ∃ label, e = KeyError (CStr label).

(** What a reader can raise. *)
Definition is_reader_error (p : Path) (e : exn) : Prop :=
  e = FileNotFoundError p ∨ e = ParserError.

(** ** Required columns *)

(** The columns each loop body reads, in the order it reads them. *)
Definition demand_columns : list string := ["product_id"; "week_id"; "demand"].
Definition capacity_columns : list string := ["machine_id"; "product_id"; "week_cap"].
Definition transition_columns : list string := ["machine_Id"; "from"; "to"; "trans_time_days"].
Definition downtime_columns : list string := ["machine_Id"; "week_id"].

(** [row] carries every column of [labels]. *)
Definition has_columns (labels : list string) (row : Series) : Prop :=
  Forall (λ l, is_Some (row !! l)) labels.

(** The first column of [labels] that [row] lacks. *)
Fixpoint first_missing (labels : list string) (row : Series) : option string :=
  match labels with
  | [] => None
  | l :: rest =>
      match row !! l with
      | None => Some l
      | Some _ => first_missing rest row
      end
  end.

(** ** Further sample files *)

Definition capacity_row (m p : string) (cap : Z) : Series :=
  {[ "machine_id" := cs m; "product_id" := cs p; "week_cap" := CInt cap ]}.

(** The second row repeats the key of the first with another value. *)
Definition capacity_rows_dup : DataFrame :=
  [ capacity_row "machine_1" "product_1" 100;
    capacity_row "machine_1" "product_1" 80;
    capacity_row "machine_2" "product_1" 60 ].

Definition capacity_table_dup : gmap cell (gmap cell cell) :=
  {[ cs "machine_1" := {[ cs "product_1" := CInt 80 ]};
     cs "machine_2" := {[ cs "product_1" := CInt 60 ]} ]}.

Definition capacity_table : gmap cell (gmap cell cell) :=
  {[ cs "machine_1" := {[ cs "product_1" := CInt 100; cs "product_2" := CInt 50 ]} ]}.

(** A later delivery of transition rows: one row for a new machine and
    one that repeats a key of [transition_rows] with another value. *)
Definition transition_rows_more : DataFrame :=
  [ transition_row "machine_3" "product_2" "product_1" 9;
    transition_row "machine_2" "product_1" "product_2" 8 ].

(** Older demand rows, one of them for a key of [demand_rows]. *)
Definition demand_rows_old : DataFrame :=
  [ demand_row "product_1" "week_1" 99;
    demand_row "product_3" "week_1" 1 ].

(** A row with neither [product_id] nor [week_id]. *)
Definition demand_row_only_demand : Series := {[ "demand" := CInt 10 ]}.

(** ** Keys of a row *)

(** The pair of keys under which each loop body stores a row. *)
Definition demand_key (row : Series) : option (cell * cell) :=
  a ← row !! "product_id"; b ← row !! "week_id"; Some (a, b).

Definition capacity_key (row : Series) : option (cell * cell) :=
  a ← row !! "machine_id"; b ← row !! "product_id"; Some (a, b).

Definition transition_key (row : Series) : option (cell * (cell * cell)) :=
  a ← row !! "machine_Id"; b ← row !! "from"; c ← row !! "to"; Some (a, (b, c)).

(** ** The module-level script *)

Definition transition_xlsx : Path := mkPath false ["input"; "transition_times.xlsx"].

(** What [print] was called with. *)
Inductive Printed : Type :=
  | PrintDemand (d : gmap cell (gmap cell cell))
  | PrintCapacity (d : gmap cell (gmap cell cell))
  | PrintTranstime (d : gmap cell (gmap (cell * cell) cell))
  | PrintDowntime (d : gmap cell (gset cell))
  | PrintStr (s : string).

(** The statements at the end of the module, run when it is executed or
    imported: the outside calls made, what was printed, and the exception
    that stopped the run, if any. *)
Definition main (w : World) : list Event * list Printed * option exn :=
  match DemandLoader_init w demand_xlsx with
  | (t1, inl e) => (t1, [], Some e)
  | (t1, inr demand_loader) =>
    let out1 := [PrintDemand (demand_data demand_loader)] in
    match CapacityLoader_init w capacity_xlsx with
    | (t2, inl e) => (t1 ++ t2, out1, Some e)
    | (t2, inr capacity_loader) =>
      let out2 := out1 ++ [PrintCapacity (capacity_data capacity_loader)] in
      match TranstimeLoader_init w transition_xlsx with
      | (t3, inl e) => (t1 ++ t2 ++ t3, out2, Some e)
      | (t3, inr transtime_loader) =>
        let out3 := out2 ++ [PrintTranstime (transtime_data transtime_loader)] in
        match DowntimeLoader_init w downtime_xlsx with
        | (t4, inl e) => (t1 ++ t2 ++ t3 ++ t4, out3, Some e)
        | (t4, inr downtime_loader) =>
          (t1 ++ t2 ++ t3 ++ t4,
           out3 ++ [PrintDowntime (downtime_data downtime_loader); PrintStr "hi"],
           None)
        end
      end
    end
  end.

(** The four reads of the script, in source order. *)
Definition script_reads : list Event :=
  [ReadExcel demand_xlsx; ReadExcel capacity_xlsx; ReadExcel transition_xlsx;
   ReadExcel downtime_xlsx].

(** The file at [p] exists, [pd.read_excel] parses it, and every row of
    the frame carries the columns [labels]. *)
Definition loadable (w : World) (p : Path) (labels : list string) : Prop :=
  ∃ content df, fs w p = Some content ∧ parse_excel w content = Some df
                ∧ Forall (has_columns labels) df.

(** A world holding the four spreadsheets of the script.  The content of
    each file is its own name, which the spreadsheet parser maps to the
    sample frame. *)
Definition script_world : World :=
  mkWorld (λ q, if decide (q ∈ [demand_xlsx; capacity_xlsx; transition_xlsx; downtime_xlsx])
                then Some (name q) else None)
          (λ _, None)
          (λ content,
             if decide (content = "demand.xlsx") then Some demand_rows
             else if decide (content = "capacity.xlsx") then Some capacity_rows
             else if decide (content = "transition_times.xlsx") then Some transition_rows
             else if decide (content = "scheduled_downtime.xlsx") then Some downtime_rows
             else None).

(** The same world without the transition file. *)
Definition script_world_no_transition : World :=
  mkWorld (λ q, if decide (q = transition_xlsx) then None else fs script_world q)
          (parse_csv script_world) (parse_excel script_world).

(** ** The scenarios of the specification *)

Example demand_round_trip :
  DemandLoader_init demand_world demand_xlsx =
  ([ReadExcel demand_xlsx],
   inr (mkDemandLoader
          {[ cs "product_1" := {[ cs "week_1" := CInt 10; cs "week_2" := CInt 20 ]};
             cs "product_2" := {[ cs "week_1" := CInt 5 ]} ]})).
Proof. vm_compute. reflexivity. Qed.

Example capacity_scenario :
  CapacityLoader_init (table_world capacity_xlsx capacity_rows) capacity_xlsx =
  ([ReadExcel capacity_xlsx],
   inr (mkCapacityLoader
          {[ cs "machine_1" := {[ cs "product_1" := CInt 100; cs "product_2" := CInt 50 ]} ]})).
Proof. vm_compute. reflexivity. Qed.

Example downtime_scenario :
  DowntimeLoader_init (table_world downtime_xlsx downtime_rows) downtime_xlsx =
  ([ReadExcel downtime_xlsx], inr (mkDowntimeLoader downtime_table)).
Proof. vm_compute. reflexivity. Qed.

Example suffix_examples :
  suffix demand_xlsx = ".xlsx" ∧ suffix (mkPath false ["a.tar.GZ"]) = ".GZ"
  ∧ suffix (mkPath true ["tmp"; ".csv"]) = "" ∧ lower ".CsV" = ".csv".
Proof. vm_compute. auto. Qed.

(** ** The monad *)

Lemma bind_unfold {A B} (f : A → M B) (m : M A) :
  m ≫= f = match m with
           | (t, inl e) => (t, inl e)
           | (t, inr a) => (t ++ (f a).1, (f a).2)
           end.
Proof. destruct m as [t [e|a]]; [done|]. unfold mbind, M_bind. by destruct (f a). Qed.

Lemma bind_ret_l {A B} (f : A → M B) (a : A) : mret a ≫= f = f a.
Proof. rewrite bind_unfold. simpl. by destruct (f a). Qed.

Lemma bind_raise {A B} (f : A → M B) (e : exn) : raise e ≫= f = raise e.
Proof. done. Qed.

Lemma bind_assoc {A B C} (f : A → M B) (g : B → M C) (m : M A) :
  (m ≫= f) ≫= g = m ≫= (λ a, f a ≫= g).
Proof.
  destruct m as [t [e|a]]; [done|].
  rewrite !(bind_unfold _ (t, inr a)). rewrite !bind_unfold. simpl.
  destruct (f a) as [t1 [e1|b]]; simpl; [done|].
  by rewrite app_assoc.
Qed.

Lemma bind_inr {A B} (f : A → M B) (m : M A) tr b :
  m ≫= f = (tr, inr b) ↔
  ∃ t1 a t2, m = (t1, inr a) ∧ f a = (t2, inr b) ∧ tr = t1 ++ t2.
Proof.
  rewrite bind_unfold. destruct m as [t [e|a]]; simpl.
  - split; [done|]. by intros (? & ? & ? & ? & _).
  - destruct (f a) as [t2 r] eqn:Hf; simpl. split.
    + intros Heq. injection Heq as <- ->. eauto 6.
    + intros (t1 & a' & t2' & Hm & Hfa & ->).
      injection Hm as <- <-. rewrite Hf in Hfa. by injection Hfa as <- <-.
Qed.

Lemma bind_silent {A B} (f : A → M B) (a : A) : ([], inr a) ≫= f = f a.
Proof. apply bind_ret_l. Qed.

Lemma getitem_eq (row : Series) (label : string) :
  getitem row label = ([], match row !! label with
                           | Some c => inr c
                           | None => inl (KeyError (CStr label))
                           end).
Proof. unfold getitem. by destruct (row !! label). Qed.

Lemma bind_ret_r {A} (m : M A) : m ≫= mret = m.
Proof.
  rewrite bind_unfold. destruct m as [t [e|a]]; [done|]. simpl. by rewrite app_nil_r.
Qed.

Lemma bind_ext {A B} (f g : A → M B) (m : M A) :
  (∀ a, f a = g a) → m ≫= f = m ≫= g.
Proof. intros Hfg. rewrite !bind_unfold. destruct m as [t [e|a]]; [done|]. by rewrite Hfg. Qed.

Lemma for_rows_snoc {T} (rows : DataFrame) (row : Series) (body : T → Series → M T) (t : T) :
  for_rows (rows ++ [row]) body t = for_rows rows body t ≫= (λ t', body t' row).
Proof.
  revert t. induction rows as [|r rows IH]; intros t; cbn [for_rows app].
  - rewrite bind_ret_l. apply bind_ret_r.
  - rewrite bind_assoc. by apply bind_ext.
Qed.

(** ** Loops whose body makes no outside call *)

Section SilentLoop.

Context {T : Type} (body : T → Series → M T) (step : T → Series → exn + T).
Hypothesis body_step : ∀ t row, body t row = ([], step t row).

Lemma for_rows_snoc_ok (rows : DataFrame) (row : Series) (t0 t' : T) tr :
  for_rows (rows ++ [row]) body t0 = (tr, inr t') ↔
  ∃ t, for_rows rows body t0 = (tr, inr t) ∧ step t row = inr t'.
Proof.
  rewrite for_rows_snoc, bind_inr. split.
  - intros (t1 & t & t2 & Hrows & Hrow & ->). rewrite body_step in Hrow.
    injection Hrow as <- Hstep. rewrite app_nil_r. eauto.
  - intros (t & Hrows & Hstep). exists tr, t, []. rewrite body_step, Hstep, app_nil_r. done.
Qed.

(** Induction over the rows already consumed by a successful run. *)
Lemma for_rows_ok_ind (P : DataFrame → T → Prop) (t0 : T) :
  P [] t0 →
  (∀ rows row t t', P rows t → step t row = inr t' → P (rows ++ [row]) t') →
  ∀ rows tr t, for_rows rows body t0 = (tr, inr t) → tr = [] ∧ P rows t.
Proof.
  intros Hnil Hsnoc rows. induction rows as [|row rows IH] using rev_ind; intros tr t.
  - cbn. intros Heq. injection Heq as <- <-. done.
  - rewrite for_rows_snoc_ok. intros (t1 & Hrows & Hstep).
    destruct (IH _ _ Hrows) as [-> HP]. eauto.
Qed.

(** A run succeeds exactly when the body succeeds on every row; here one
    direction, for bodies whose success depends on the row alone. *)
Lemma for_rows_total (ok : Series → Prop) (rows : DataFrame) (t0 : T) :
  (∀ t row, ok row → is_Some (match step t row with inr t' => Some t' | inl _ => None end)) →
  Forall ok rows → ∃ t, for_rows rows body t0 = ([], inr t).
Proof.
  intros Hok Hall. revert t0. induction Hall as [|row rows Hrow _ IH]; intros t0; cbn.
  - by exists t0.
  - rewrite body_step. destruct (Hok t0 row Hrow) as [t1 Ht1].
    destruct (step t0 row) as [e|t1'] eqn:Hstep; [done|].
    destruct (IH t1') as [t Ht]. exists t. by rewrite bind_silent.
Qed.

End SilentLoop.

(** ** Which row wins *)

Lemma first_row_with_ext (P Q : Series → Prop) rows r :
  (∀ r, P r ↔ Q r) → first_row_with P rows r ↔ first_row_with Q rows r.
Proof.
  intros HPQ. unfold first_row_with. split; intros (i & Hi & HP & Hmin); exists i;
    (split; [done|]); (split; [by apply HPQ|]); intros j r' Hj HQ; apply (Hmin j r' Hj); by apply HPQ.
Qed.

Lemma last_row_with_ext (P Q : Series → Prop) rows r :
  (∀ r, P r ↔ Q r) → last_row_with P rows r ↔ last_row_with Q rows r.
Proof.
  intros HPQ. unfold last_row_with. split; intros (i & Hi & HP & Hmax); exists i;
    (split; [done|]); (split; [by apply HPQ|]); intros j r' Hj HQ; apply (Hmax j r' Hj); by apply HPQ.
Qed.

Lemma first_row_with_unique (P : Series → Prop) rows r1 r2 :
  first_row_with P rows r1 → first_row_with P rows r2 → r1 = r2.
Proof.
  intros (i & Hi & HPi & Hmin1) (j & Hj & HPj & Hmin2).
  assert (i = j) as -> by (pose proof (Hmin1 j r2 Hj HPj); pose proof (Hmin2 i r1 Hi HPi); lia).
  congruence.
Qed.

Lemma last_row_with_unique (P : Series → Prop) rows r1 r2 :
  last_row_with P rows r1 → last_row_with P rows r2 → r1 = r2.
Proof.
  intros (i & Hi & HPi & Hmax1) (j & Hj & HPj & Hmax2).
  assert (i = j) as -> by (pose proof (Hmax1 j r2 Hj HPj); pose proof (Hmax2 i r1 Hi HPi); lia).
  congruence.
Qed.

Section Wins.

Context {T K V : Type} `{EqDecision K}.
Context (body : T → Series → M T) (step : T → Series → exn + T).
Context (read : T → K → option V) (key : Series → option K) (val : Series → option V).
Context (t0 : T).
Hypothesis body_step : ∀ t row, body t row = ([], step t row).
Hypothesis read_t0 : ∀ k, read t0 k = None.

(** Overwriting loops: the value read under a key is that of the last
    row carrying the key. *)
Lemma last_write_wins (rows : DataFrame) tr (t : T) :
  (∀ t row t', step t row = inr t' →
     ∃ k v, key row = Some k ∧ val row = Some v ∧
            ∀ k', read t' k' = if decide (k' = k) then Some v else read t k') →
  for_rows rows body t0 = (tr, inr t) →
  tr = [] ∧
  ∀ k v, read t k = Some v ↔
         ∃ r, last_row_with (λ r, key r = Some k) rows r ∧ val r = Some v.
Proof.
  intros Hstep Hrun.
  set (P := λ (rows : DataFrame) (t : T),
    (∀ k v, read t k = Some v →
            ∃ r, last_row_with (λ r, key r = Some k) rows r ∧ val r = Some v) ∧
    (∀ k, read t k = None → ∀ r, r ∈ rows → key r ≠ Some k)).
  destruct (for_rows_ok_ind body step body_step P t0) with (rows := rows) (tr := tr) (t := t)
    as [-> [HP1 HP2]]; [| |done|].
  - split; [intros k v; by rewrite read_t0|]. intros k _ r Hr. by apply elem_of_nil in Hr.
  - clear Hrun. intros rows1 row t1 t' [IH1 IH2] Hs.
    destruct (Hstep _ _ _ Hs) as (k0 & v0 & Hk0 & Hv0 & Hread). split.
    + intros k v. rewrite Hread. case_decide as Hk; [subst k|].
      * intros [= <-]. exists row. split; [|done]. exists (length rows1). split_and!.
        -- by rewrite lookup_app_r, Nat.sub_diag.
        -- done.
        -- intros j r' Hj _. apply lookup_lt_Some in Hj. rewrite length_app in Hj. simpl in Hj. lia.
      * intros Hv. destruct (IH1 _ _ Hv) as (r & (i & Hi & Hki & Hmax) & Hval).
        exists r. split; [|done]. exists i. split_and!; [by apply lookup_app_l_Some|done|].
        intros j r' Hj Hkj. destruct (decide (j < length rows1)) as [Hlt|Hge].
        -- rewrite lookup_app_l in Hj by done. eauto.
        -- rewrite lookup_app_r in Hj by lia.
           apply list_lookup_singleton_Some in Hj as [_ <-]. congruence.
    + intros k. rewrite Hread. case_decide as Hk; [done|]. intros Hnone r.
      rewrite elem_of_app, list_elem_of_singleton. intros [Hr | ->]; [by eapply IH2|congruence].
  - split; [done|]. intros k v. split; [by apply HP1|].
    intros (r & Hlast & Hval). destruct (read t k) as [v'|] eqn:Hr.
    + destruct (HP1 _ _ Hr) as (r' & Hlast' & Hval').
      rewrite (last_row_with_unique _ _ _ _ Hlast Hlast') in Hval. congruence.
    + destruct Hlast as (i & Hi & Hk & _). exfalso.
      eapply HP2; [done| |done]. by eapply list_elem_of_lookup_2.
Qed.

(** Keeping loops: the value read under a key is that of the first row
    carrying the key. *)
Lemma first_write_wins (rows : DataFrame) tr (t : T) :
  (∀ t row t', step t row = inr t' →
     ∃ k v, key row = Some k ∧ val row = Some v ∧
            ∀ k', read t' k' = if decide (k' = k) then Some (default v (read t k))
                               else read t k') →
  for_rows rows body t0 = (tr, inr t) →
  tr = [] ∧
  ∀ k v, read t k = Some v ↔
         ∃ r, first_row_with (λ r, key r = Some k) rows r ∧ val r = Some v.
Proof.
  intros Hstep Hrun.
  set (P := λ (rows : DataFrame) (t : T),
    (∀ k v, read t k = Some v →
            ∃ r, first_row_with (λ r, key r = Some k) rows r ∧ val r = Some v) ∧
    (∀ k, read t k = None → ∀ r, r ∈ rows → key r ≠ Some k)).
  destruct (for_rows_ok_ind body step body_step P t0) with (rows := rows) (tr := tr) (t := t)
    as [-> [HP1 HP2]]; [| |done|].
  - split; [intros k v; by rewrite read_t0|]. intros k _ r Hr. by apply elem_of_nil in Hr.
  - clear Hrun. intros rows1 row t1 t' [IH1 IH2] Hs.
    destruct (Hstep _ _ _ Hs) as (k0 & v0 & Hk0 & Hv0 & Hread). split.
    + intros k v. rewrite Hread. case_decide as Hk; [subst k|].
      * destruct (read t1 k0) as [v1|] eqn:Hold; simpl; intros [= <-].
        -- destruct (IH1 _ _ Hold) as (r & (i & Hi & Hki & Hmin) & Hval).
           exists r. split; [|done]. exists i. split_and!; [by apply lookup_app_l_Some|done|].
           intros j r' Hj Hkj. destruct (decide (j < length rows1)) as [Hlt|Hge].
           ++ rewrite lookup_app_l in Hj by done. eauto.
           ++ apply lookup_lt_Some in Hi. lia.
        -- exists row. split; [|done]. exists (length rows1). split_and!.
           ++ by rewrite lookup_app_r, Nat.sub_diag.
           ++ done.
           ++ intros j r' Hj Hkj. destruct (decide (j < length rows1)) as [Hlt|Hge]; [|lia].
              rewrite lookup_app_l in Hj by done. exfalso.
              eapply (IH2 k0 Hold r'); [|done]. by eapply list_elem_of_lookup_2.
      * intros Hv. destruct (IH1 _ _ Hv) as (r & (i & Hi & Hki & Hmin) & Hval).
        exists r. split; [|done]. exists i. split_and!; [by apply lookup_app_l_Some|done|].
        intros j r' Hj Hkj. destruct (decide (j < length rows1)) as [Hlt|Hge].
        -- rewrite lookup_app_l in Hj by done. eauto.
        -- apply lookup_lt_Some in Hi. lia.
    + intros k. rewrite Hread. case_decide as Hk; [done|]. intros Hnone r.
      rewrite elem_of_app, list_elem_of_singleton. intros [Hr | ->]; [by eapply IH2|congruence].
  - split; [done|]. intros k v. split; [by apply HP1|].
    intros (r & Hfirst & Hval). destruct (read t k) as [v'|] eqn:Hr.
    + destruct (HP1 _ _ Hr) as (r' & Hfirst' & Hval').
      rewrite (first_row_with_unique _ _ _ _ Hfirst Hfirst') in Hval. congruence.
    + destruct Hfirst as (i & Hi & Hk & _). exfalso.
      eapply HP2; [done| |done]. by eapply list_elem_of_lookup_2.
Qed.

End Wins.

(** ** Tactics *)

Ltac body_cases row :=
  rewrite ?getitem_eq;
  repeat match goal with
         | |- context [row !! ?l] =>
             let H := fresh "Hfield" in destruct (row !! l) eqn:H; rewrite ?bind_silent
         end.

(** ** The four loop bodies *)

Lemma setdefault_put_last {K1 K2 V} `{Countable K1, Countable K2}
    (t : gmap K1 (gmap K2 V)) (k1 : K1) (k2 : K2) (v : V) :
  (let '(t', inner) := setdefault t k1 ∅ in <[k1 := <[k2 := v]> inner]> t') = put_last k1 k2 v t.
Proof.
  unfold setdefault, put_last. destruct (t !! k1); simpl; [done|]. by rewrite insert_insert_eq.
Qed.

Lemma demand_body_eq t row :
  demand_body t row =
  ([], match row !! "product_id", row !! "week_id", row !! "demand" with
       | Some p, Some w, Some v => inr (put_last p w v t)
       | None, _, _ => inl (KeyError (CStr "product_id"))
       | Some _, None, _ => inl (KeyError (CStr "week_id"))
       | Some _, Some _, None => inl (KeyError (CStr "demand"))
       end).
Proof.
  unfold demand_body. body_cases row; try done.
  rewrite <- setdefault_put_last. by destruct (setdefault _ _ _).
Qed.

Lemma capacity_body_eq t row :
  capacity_body t row =
  ([], match row !! "machine_id", row !! "product_id", row !! "week_cap" with
       | Some m, Some p, Some v => inr (put_last m p v t)
       | None, _, _ => inl (KeyError (CStr "machine_id"))
       | Some _, None, _ => inl (KeyError (CStr "product_id"))
       | Some _, Some _, None => inl (KeyError (CStr "week_cap"))
       end).
Proof.
  unfold capacity_body. body_cases row; try done.
  rewrite <- setdefault_put_last. by destruct (setdefault _ _ _).
Qed.

Lemma transition_body_eq t row :
  transition_body t row =
  ([], match row !! "machine_Id", row !! "from", row !! "to", row !! "trans_time_days" with
       | Some m, Some f, Some o, Some v => inr (put_first m (f, o) v t)
       | None, _, _, _ => inl (KeyError (CStr "machine_Id"))
       | Some _, None, _, _ => inl (KeyError (CStr "from"))
       | Some _, Some _, None, _ => inl (KeyError (CStr "to"))
       | Some _, Some _, Some _, None => inl (KeyError (CStr "trans_time_days"))
       end).
Proof.
  unfold transition_body. body_cases row; try done.
  unfold put_first, dict_getitem, setdefault. case_decide as Hdom.
  - apply not_elem_of_dom in Hdom. rewrite Hdom, lookup_insert_eq, bind_ret_l. simpl.
    rewrite lookup_empty. cbn. by rewrite insert_insert_eq.
  - apply elem_of_dom in Hdom as [inner Hinner].
    rewrite Hinner, bind_ret_l. simpl. by destruct (inner !! _).
Qed.

Lemma downtime_body_eq t row :
  downtime_body t row =
  ([], match row !! "machine_Id", row !! "week_id" with
       | Some m, Some w => inr (put_member w m t)
       | None, _ => inl (KeyError (CStr "machine_Id"))
       | Some _, None => inl (KeyError (CStr "week_id"))
       end).
Proof.
  unfold downtime_body. body_cases row; try done.
  unfold setdefault, put_member. destruct (t !! _); simpl; [done|]. by rewrite insert_insert_eq.
Qed.

(** Reading a nested table. *)
Lemma lookup_put_last {K1 K2 V} `{Countable K1, Countable K2}
    (k1 : K1) (k2 : K2) (v : V) (t : gmap K1 (gmap K2 V)) (a : K1) (b : K2) :
  put_last k1 k2 v t !! a ≫= (.!! b) =
  if decide ((a, b) = (k1, k2)) then Some v else t !! a ≫= (.!! b).
Proof.
  unfold put_last. destruct (decide (a = k1)) as [->|Ha].
  - rewrite lookup_insert_eq. cbn. destruct (decide (b = k2)) as [->|Hb].
    + rewrite lookup_insert_eq. by rewrite decide_True.
    + rewrite lookup_insert_ne by done. rewrite decide_False by congruence.
      by destruct (t !! k1).
  - rewrite lookup_insert_ne by done. by rewrite decide_False by congruence.
Qed.

Lemma lookup_put_first {K1 K2 V} `{Countable K1, Countable K2}
    (k1 : K1) (k2 : K2) (v : V) (t : gmap K1 (gmap K2 V)) (a : K1) (b : K2) :
  put_first k1 k2 v t !! a ≫= (.!! b) =
  if decide ((a, b) = (k1, k2)) then Some (default v (t !! a ≫= (.!! b)))
  else t !! a ≫= (.!! b).
Proof.
  unfold put_first. destruct (decide (a = k1)) as [->|Ha].
  - rewrite lookup_insert_eq. cbn. destruct (decide (b = k2)) as [->|Hb].
    + rewrite decide_True by done. destruct (t !! k1) as [inner|]; cbn.
      * destruct (inner !! k2) eqn:Hin; [done|]. by rewrite lookup_insert_eq.
      * by rewrite lookup_empty, lookup_insert_eq.
    + rewrite decide_False by congruence. destruct (t !! k1) as [inner|]; cbn.
      * destruct (inner !! k2); [done|]. by rewrite lookup_insert_ne.
      * rewrite lookup_empty. by rewrite lookup_insert_ne.
  - rewrite lookup_insert_ne by done. by rewrite decide_False by congruence.
Qed.

(** ** Shape of a loader's construction *)

Lemma for_rows_silent {T} (body : T → Series → M T) (rows : DataFrame) (t0 : T) :
  (∀ t row, (body t row).1 = []) → (for_rows rows body t0).1 = [].
Proof.
  intros Hbody. revert t0. induction rows as [|row rows IH]; intros t0; cbn [for_rows]; [done|].
  rewrite bind_unfold. specialize (Hbody t0 row).
  destruct (body t0 row) as [t1 [e|t']]; simpl in *; [done|]. by rewrite Hbody, IH.
Qed.

Lemma FileInput_init_eq (p : Path) :
  FileInput_init p = mret (mkFileInput p).
Proof. done. Qed.

Section Construction.

Context {T L : Type} (frame : M DataFrame) (body : T → Series → M T) (mk : T → L) (t0 : T).
Hypothesis body_silent : ∀ t row, (body t row).1 = [].

Lemma construct_ok tr (ld : L) :
  construct frame body mk t0 = (tr, inr ld) ↔
  ∃ df t, frame = (tr, inr df) ∧ for_rows df body t0 = ([], inr t) ∧ ld = mk t.
Proof.
  unfold construct. rewrite bind_inr. split.
  - intros (t1 & t & t2 & Hload & Hret & ->). injection Hret as <- <-.
    apply bind_inr in Hload as (t3 & df & t4 & Hframe & Hrows & ->).
    pose proof (for_rows_silent body df t0 body_silent) as Hsil. rewrite Hrows in Hsil.
    simpl in Hsil. subst t4. rewrite !app_nil_r. eauto.
  - intros (df & t & Hframe & Hrows & ->). exists tr, t, []. split_and!; [|done|by rewrite app_nil_r].
    apply bind_inr. exists tr, df, []. by rewrite app_nil_r.
Qed.

Lemma construct_fail_first_row tr row rest e :
  frame = (tr, inr (row :: rest)) → body t0 row = ([], inl e) →
  construct frame body mk t0 = (tr, inl e).
Proof.
  intros Hframe Hrow. unfold construct. rewrite Hframe.
  rewrite !bind_unfold. cbn [for_rows]. rewrite Hrow. cbn. by rewrite app_nil_r.
Qed.

Lemma construct_trace : (construct frame body mk t0).1 = frame.1.
Proof.
  unfold construct. rewrite !bind_unfold. destruct frame as [tr [e|df]]; [done|].
  pose proof (for_rows_silent body df t0 body_silent) as Hsil.
  destruct (for_rows df body t0) as [t1 [e|t]]; simpl in *; subst t1; by rewrite ?app_nil_r.
Qed.

End Construction.

Lemma DemandLoader_init_eq w p :
  DemandLoader_init w p = construct (demand_df w p) demand_body mkDemandLoader ∅.
Proof. unfold DemandLoader_init. by rewrite FileInput_init_eq, bind_ret_l. Qed.

Lemma CapacityLoader_init_eq w p :
  CapacityLoader_init w p = construct (capacity_df w p) capacity_body mkCapacityLoader ∅.
Proof. unfold CapacityLoader_init. by rewrite FileInput_init_eq, bind_ret_l. Qed.

Lemma TranstimeLoader_init_eq w p :
  TranstimeLoader_init w p = construct (transition_df w p) transition_body mkTranstimeLoader ∅.
Proof. unfold TranstimeLoader_init. by rewrite FileInput_init_eq, bind_ret_l. Qed.

Lemma DowntimeLoader_init_eq w p :
  DowntimeLoader_init w p = construct (downtime_df w p) downtime_body mkDowntimeLoader ∅.
Proof. unfold DowntimeLoader_init. by rewrite FileInput_init_eq, bind_ret_l. Qed.

Lemma demand_body_silent t row : (demand_body t row).1 = [].
Proof. by rewrite demand_body_eq. Qed.
Lemma capacity_body_silent t row : (capacity_body t row).1 = [].
Proof. by rewrite capacity_body_eq. Qed.
Lemma transition_body_silent t row : (transition_body t row).1 = [].
Proof. by rewrite transition_body_eq. Qed.
Lemma downtime_body_silent t row : (downtime_body t row).1 = [].
Proof. by rewrite downtime_body_eq. Qed.

Lemma body_silent_eq {T} (body : T → Series → M T) :
  (∀ t row, (body t row).1 = []) → ∀ t row, body t row = ([], (body t row).2).
Proof. intros H t row. specialize (H t row). destruct (body t row); simpl in *. by subst. Qed.

(** ** Duplicate keys *)

(** C1.  After a successful construction of [TranstimeLoader],
    [transtime_data[m][(f, t)]] is the [trans_time_days] of the first row,
    in file order, whose [machine_Id], [from] and [to] are [m], [f] and
    [t]; a row met when its key is already stored leaves the table as it
    is. *)
Theorem transtime_first_write_wins (w : World) (p : Path) tr (ld : TranstimeLoader) :
  TranstimeLoader_init w p = (tr, inr ld) →
  ∃ df, transition_df w p = (tr, inr df) ∧
    (∀ m f t v,
       transtime_data ld !! m ≫= (.!! (f, t)) = Some v ↔
       ∃ r, first_row_with (λ r, r !! "machine_Id" = Some m ∧ r !! "from" = Some f
                                 ∧ r !! "to" = Some t) df r
            ∧ r !! "trans_time_days" = Some v) ∧
    (∀ table row m f t v,
       row !! "machine_Id" = Some m → row !! "from" = Some f → row !! "to" = Some t →
       row !! "trans_time_days" = Some v →
       is_Some (table !! m ≫= (.!! (f, t))) →
       transition_body table row = ([], inr table)).
Proof.
  rewrite TranstimeLoader_init_eq.
  intros (df & table & Hframe & Hrows & ->)%construct_ok; [|apply transition_body_silent].
  exists df. split; [done|]. split.
  - intros m f t v. cbn [transtime_data].
    pose (key := λ r : Series,
      m ← r !! "machine_Id"; f ← r !! "from"; t ← r !! "to"; Some (m, (f, t))).
    destruct (first_write_wins transition_body (λ t r, (transition_body t r).2)
                (λ t k, t !! k.1 ≫= (.!! k.2)) key (λ r, r !! "trans_time_days") ∅
                (body_silent_eq _ transition_body_silent)) with (rows := df) (tr := @nil Event) (t := table)
      as [_ Hwins]; [done| |done|].
    + clear. intros t row t'. rewrite transition_body_eq. cbn [snd]. unfold key.
      destruct (row !! "machine_Id") as [m|], (row !! "from") as [f|],
        (row !! "to") as [o|], (row !! "trans_time_days") as [v|]; try done.
      intros [= <-]. exists (m, (f, o)), v. split_and!; [done..|].
      intros [a [b c]]. cbn [fst snd]. rewrite lookup_put_first.
      repeat case_decide; try done; congruence.
    + rewrite (Hwins (m, (f, t)) v). split; intros (r & Hfirst & Hval); exists r; (split; [|done]);
        revert Hfirst; apply first_row_with_ext; clear; intros r; unfold key;
        destruct (r !! "machine_Id"), (r !! "from"), (r !! "to"); cbn; intuition congruence.
  - intros t row m f o v Hm Hf Ho Hv [v0 Hsome]. rewrite transition_body_eq, Hm, Hf, Ho, Hv.
    do 2 f_equal. unfold put_first. destruct (t !! m) as [inner|] eqn:Hin; [|done]. cbn in *.
    rewrite Hsome. by apply insert_id.
Qed.

Lemma transtime_first_write_wins_witness :
  TranstimeLoader_init transition_world transition_csv
    = ([ReadCsv transition_csv], inr (mkTranstimeLoader transition_table))
  ∧ ∃ r, first_row_with (λ r, r !! "machine_Id" = Some (cs "machine_1")
                              ∧ r !! "from" = Some (cs "product_1")
                              ∧ r !! "to" = Some (cs "product_2")) transition_rows r
         ∧ r !! "trans_time_days" = Some (CInt 3).
Proof.
  assert (TranstimeLoader_init transition_world transition_csv
          = ([ReadCsv transition_csv], inr (mkTranstimeLoader transition_table))) as Hrun
    by (vm_compute; reflexivity).
  split; [exact Hrun|].
  destruct (transtime_first_write_wins _ _ _ _ Hrun) as (df & Hdf & Hfirst & _).
  assert (transition_df transition_world transition_csv
          = ([ReadCsv transition_csv], inr transition_rows)) as Hread
    by (vm_compute; reflexivity).
  assert (df = transition_rows) as -> by congruence.
  apply Hfirst. vm_compute. reflexivity.
Defined.

(** C2.  After a successful construction of [DemandLoader],
    [demand_data[p][w]] is the [demand] of the last row, in file order,
    whose [product_id] and [week_id] are [p] and [w]. *)
Theorem demand_last_write_wins (w : World) (p : Path) tr (ld : DemandLoader) :
  DemandLoader_init w p = (tr, inr ld) →
  ∃ df, demand_df w p = (tr, inr df) ∧
    ∀ product week v,
      demand_data ld !! product ≫= (.!! week) = Some v ↔
      ∃ r, last_row_with (λ r, r !! "product_id" = Some product ∧ r !! "week_id" = Some week) df r
           ∧ r !! "demand" = Some v.
Proof.
  rewrite DemandLoader_init_eq.
  intros (df & table & Hframe & Hrows & ->)%construct_ok; [|apply demand_body_silent].
  exists df. split; [done|]. intros product week v. cbn [demand_data].
  pose (key := λ r : Series, a ← r !! "product_id"; b ← r !! "week_id"; Some (a, b)).
  destruct (last_write_wins demand_body (λ t r, (demand_body t r).2)
              (λ t k, t !! k.1 ≫= (.!! k.2)) key (λ r, r !! "demand") ∅
              (body_silent_eq _ demand_body_silent)) with (rows := df) (tr := @nil Event) (t := table)
    as [_ Hwins]; [done| |done|].
  - clear. intros t row t'. rewrite demand_body_eq. cbn [snd]. unfold key.
    destruct (row !! "product_id") as [a|], (row !! "week_id") as [b|],
      (row !! "demand") as [v|]; try done.
    intros [= <-]. exists (a, b), v. split_and!; [done..|].
    intros [a' b']. cbn [fst snd]. rewrite lookup_put_last.
    repeat case_decide; try done; congruence.
  - rewrite (Hwins (product, week) v). split; intros (r & Hlast & Hval); exists r; (split; [|done]);
      revert Hlast; apply last_row_with_ext; clear; intros r; unfold key;
      destruct (r !! "product_id"), (r !! "week_id"); cbn; intuition congruence.
Qed.

Lemma demand_last_write_wins_witness :
  DemandLoader_init (table_world demand_xlsx demand_rows_dup) demand_xlsx
    = ([ReadExcel demand_xlsx], inr (mkDemandLoader demand_table_dup))
  ∧ ∃ r, last_row_with (λ r, r !! "product_id" = Some (cs "product_1")
                             ∧ r !! "week_id" = Some (cs "week_1")) demand_rows_dup r
         ∧ r !! "demand" = Some (CInt 30).
Proof.
  assert (DemandLoader_init (table_world demand_xlsx demand_rows_dup) demand_xlsx
          = ([ReadExcel demand_xlsx], inr (mkDemandLoader demand_table_dup))) as Hrun
    by (vm_compute; reflexivity).
  split; [exact Hrun|].
  destruct (demand_last_write_wins _ _ _ _ Hrun) as (df & Hdf & Hlast).
  assert (demand_df (table_world demand_xlsx demand_rows_dup) demand_xlsx
          = ([ReadExcel demand_xlsx], inr demand_rows_dup)) as Hread
    by (vm_compute; reflexivity).
  assert (df = demand_rows_dup) as -> by congruence.
  apply Hlast. vm_compute. reflexivity.
Defined.

(** ** Downtime sets *)

Lemma downtime_run (rows : DataFrame) tr t :
  for_rows rows downtime_body ∅ = (tr, inr t) → tr = [] ∧ downtime_of rows t.
Proof.
  apply (for_rows_ok_ind downtime_body (λ t r, (downtime_body t r).2)
           (body_silent_eq _ downtime_body_silent) downtime_of).
  - split_and!; [|done|done]. intros week m. split.
    + intros (S & HS & _). by rewrite lookup_empty in HS.
    + intros (r & Hr & _). by apply elem_of_nil in Hr.
  - clear. intros rows row t t' (Hmem & Hne & Hall). rewrite downtime_body_eq. cbn [snd].
    destruct (row !! "machine_Id") as [m0|] eqn:Hm0; [|done].
    destruct (row !! "week_id") as [w0|] eqn:Hw0; [|done]. intros [= <-].
    unfold put_member. split_and!.
    + intros week m. destruct (decide (week = w0)) as [->|Hweek].
      * rewrite lookup_insert_eq. split.
        -- intros (S & [= <-] & [->%elem_of_singleton|Hin]%elem_of_union).
           ++ exists row. rewrite elem_of_app, list_elem_of_singleton. eauto.
           ++ destruct (t !! w0) as [S0|] eqn:Hold; [|by apply not_elem_of_empty in Hin].
              destruct (Hmem w0 m) as [(r & Hr & Hrw & Hrm) _]; [eauto|].
              exists r. rewrite elem_of_app. eauto.
        -- intros (r & [Hr | ->%list_elem_of_singleton]%elem_of_app & Hrw & Hrm).
           ++ destruct (Hmem w0 m) as [_ (S & HS & Hin)]; [eauto|].
              eexists. split; [done|]. rewrite HS. apply elem_of_union. by right.
           ++ eexists. split; [done|]. assert (m = m0) as -> by congruence.
              apply elem_of_union. left. by apply elem_of_singleton.
      * rewrite lookup_insert_ne by done. rewrite Hmem. split.
        -- intros (r & Hr & Hrw & Hrm). exists r. rewrite elem_of_app. eauto.
        -- intros (r & [Hr | ->%list_elem_of_singleton]%elem_of_app & Hrw & Hrm); [eauto|congruence].
    + intros week S. destruct (decide (week = w0)) as [->|Hweek].
      * rewrite lookup_insert_eq. intros [= <-]. apply (non_empty_inhabited_L m0).
        apply elem_of_union. left. by apply elem_of_singleton.
      * rewrite lookup_insert_ne by done. apply Hne.
    + apply Forall_app. split; [done|]. apply Forall_singleton. by rewrite Hm0, Hw0.
Qed.

Lemma downtime_of_eq (rows rows' : DataFrame) t t' :
  (∀ r, r ∈ rows ↔ r ∈ rows') → downtime_of rows t → downtime_of rows' t' → t = t'.
Proof.
  intros Hsame (Hmem & Hne & _) (Hmem' & Hne' & _).
  assert (∀ week m, (∃ S, t !! week = Some S ∧ m ∈ S) ↔ (∃ S, t' !! week = Some S ∧ m ∈ S)) as Hboth.
  { intros week m. rewrite Hmem, Hmem'. by setoid_rewrite Hsame. }
  apply map_eq. intros week.
  destruct (t !! week) as [S|] eqn:Ht, (t' !! week) as [S'|] eqn:Ht'; [| | |done].
  - f_equal. apply set_eq. intros m. split; intros Hin.
    + destruct (Hboth week m) as [(S2 & HS2 & Hin2) _]; [eauto|]. congruence.
    + destruct (Hboth week m) as [_ (S2 & HS2 & Hin2)]; [eauto|]. congruence.
  - destruct (set_choose_L S) as [m Hin]; [by eapply Hne|].
    destruct (Hboth week m) as [(S2 & HS2 & _) _]; [eauto|]. congruence.
  - destruct (set_choose_L S') as [m Hin]; [by eapply Hne'|].
    destruct (Hboth week m) as [_ (S2 & HS2 & _)]; [eauto|]. congruence.
Qed.

Lemma downtime_total (rows : DataFrame) :
  Forall (λ r, is_Some (r !! "machine_Id") ∧ is_Some (r !! "week_id")) rows →
  ∃ t, for_rows rows downtime_body ∅ = ([], inr t).
Proof.
  apply (for_rows_total downtime_body (λ t r, (downtime_body t r).2)
           (body_silent_eq _ downtime_body_silent)).
  intros t row [[m Hm] [wk Hwk]]. rewrite downtime_body_eq, Hm, Hwk. by eexists.
Qed.

Lemma downtime_same_rows (rows rows' : DataFrame) t :
  (∀ r, r ∈ rows ↔ r ∈ rows') →
  for_rows rows downtime_body ∅ = ([], inr t) → for_rows rows' downtime_body ∅ = ([], inr t).
Proof.
  intros Hsame Hrun. destruct (downtime_run _ _ _ Hrun) as [_ Hof].
  destruct (downtime_total rows') as [t' Hrun'].
  { destruct Hof as (_ & _ & Hall). rewrite Forall_forall in *. intros r Hr. by apply Hall, Hsame. }
  destruct (downtime_run _ _ _ Hrun') as [_ Hof'].
  by rewrite (downtime_of_eq _ _ _ _ Hsame Hof Hof').
Qed.

(** C3.  After a successful construction of [DowntimeLoader], for every
    week that occurs in the file [downtime_data[week]] is the set of the
    [machine_Id] values of the rows of that week; a file with the same
    rows in another order, or with rows repeated, gives the same table. *)
Theorem downtime_is_set_of_machines (w : World) (p : Path) tr (ld : DowntimeLoader) :
  DowntimeLoader_init w p = (tr, inr ld) →
  ∃ df, downtime_df w p = (tr, inr df) ∧
    (∀ week, (∃ r, r ∈ df ∧ r !! "week_id" = Some week) →
       ∃ S, downtime_data ld !! week = Some S ∧
            ∀ m, m ∈ S ↔ ∃ r, r ∈ df ∧ r !! "week_id" = Some week ∧ r !! "machine_Id" = Some m) ∧
    (∀ df', df ≡ₚ df' → for_rows df' downtime_body ∅ = ([], inr (downtime_data ld))) ∧
    (∀ df', (∀ r, r ∈ df ↔ r ∈ df') → for_rows df' downtime_body ∅ = ([], inr (downtime_data ld))).
Proof.
  rewrite DowntimeLoader_init_eq.
  intros (df & table & Hframe & Hrows & ->)%construct_ok; [|apply downtime_body_silent].
  exists df. split; [done|]. cbn [downtime_data].
  destruct (downtime_run _ _ _ Hrows) as [_ (Hmem & Hne & Hall)]. split_and!.
  - intros week (r & Hr & Hweek).
    rewrite Forall_forall in Hall. destruct (Hall r Hr) as [[m Hm] _].
    destruct (Hmem week m) as [_ (S & HS & _)]; [eauto|].
    exists S. split; [done|]. intros m'. rewrite <- Hmem. split; [eauto|].
    intros (S' & HS' & Hin). congruence.
  - intros df' Hperm. eapply downtime_same_rows; [|done]. intros r. by rewrite Hperm.
  - intros df' Hsame. by eapply downtime_same_rows.
Qed.

Lemma downtime_is_set_of_machines_witness :
  DowntimeLoader_init (table_world downtime_xlsx downtime_rows) downtime_xlsx
    = ([ReadExcel downtime_xlsx], inr (mkDowntimeLoader downtime_table))
  ∧ for_rows (rev downtime_rows) downtime_body ∅ = ([], inr downtime_table).
Proof.
  assert (DowntimeLoader_init (table_world downtime_xlsx downtime_rows) downtime_xlsx
          = ([ReadExcel downtime_xlsx], inr (mkDowntimeLoader downtime_table))) as Hrun
    by (vm_compute; reflexivity).
  split; [exact Hrun|].
  destruct (downtime_is_set_of_machines _ _ _ _ Hrun) as (df & Hdf & _ & Hperm & _).
  assert (downtime_df (table_world downtime_xlsx downtime_rows) downtime_xlsx
          = ([ReadExcel downtime_xlsx], inr downtime_rows)) as Hread
    by (vm_compute; reflexivity).
  assert (df = downtime_rows) as -> by congruence.
  apply (Hperm (rev downtime_rows)). apply Permutation_rev.
Defined.

(** ** Outer keys come with an entry *)

Section Inhabited.

Context {X : Type} (body : gmap cell X → Series → M (gmap cell X)) (inhabited : X → Prop).
Hypothesis body_silent : ∀ t row, (body t row).1 = [].
Hypothesis body_writes : ∀ t row t',
  (body t row).2 = inr t' → ∃ k x, t' = <[k := x]> t ∧ inhabited x.

Lemma for_rows_inhabited (rows : DataFrame) tr (t : gmap cell X) :
  for_rows rows body ∅ = (tr, inr t) → ∀ k x, t !! k = Some x → inhabited x.
Proof.
  intros Hrun.
  apply (for_rows_ok_ind body (λ t r, (body t r).2) (body_silent_eq _ body_silent)
           (λ _ t, ∀ k x, t !! k = Some x → inhabited x)) in Hrun as [_ Hinh]; [done| |].
  - intros k x. by rewrite lookup_empty.
  - intros _ row t1 t2 IH (k0 & x0 & -> & Hx0)%body_writes k x.
    destruct (decide (k = k0)) as [->|Hk].
    + rewrite lookup_insert_eq. by intros [= <-].
    + rewrite lookup_insert_ne by done. apply IH.
Qed.

End Inhabited.

Lemma put_last_writes {K2 V} `{Countable K2} (k1 : cell) (k2 : K2) (v : V) t :
  ∃ k x, put_last k1 k2 v t = <[k := x]> t ∧ ∃ a b, x !! a = Some b.
Proof. eexists _, _. split; [done|]. exists k2, v. apply lookup_insert_eq. Qed.

Lemma put_first_writes {K2 V} `{Countable K2} (k1 : cell) (k2 : K2) (v : V) t :
  ∃ k x, put_first k1 k2 v t = <[k := x]> t ∧ ∃ a b, x !! a = Some b.
Proof.
  eexists _, _. split; [done|]. cbn. destruct (default ∅ (t !! k1) !! k2) as [b|] eqn:Hold.
  - by exists k2, b.
  - exists k2, v. apply lookup_insert_eq.
Qed.

Lemma put_member_writes (k1 x : cell) t :
  ∃ k S, put_member k1 x t = <[k := S]> t ∧ ∃ m, m ∈ S.
Proof.
  eexists _, _. split; [done|]. exists x. apply elem_of_union. left. by apply elem_of_singleton.
Qed.

(** C10.  In the table of every successfully constructed loader, each
    outer key maps to an inner dictionary with at least one entry
    ([demand_data], [capacity_data], [transtime_data]) or to a set with at
    least one member ([downtime_data]). *)
Theorem outer_keys_have_entries (w : World) (p : Path) :
  (∀ tr ld, DemandLoader_init w p = (tr, inr ld) →
     ∀ k inner, demand_data ld !! k = Some inner → ∃ week v, inner !! week = Some v) ∧
  (∀ tr ld, CapacityLoader_init w p = (tr, inr ld) →
     ∀ k inner, capacity_data ld !! k = Some inner → ∃ product v, inner !! product = Some v) ∧
  (∀ tr ld, TranstimeLoader_init w p = (tr, inr ld) →
     ∀ k inner, transtime_data ld !! k = Some inner → ∃ pair v, inner !! pair = Some v) ∧
  (∀ tr ld, DowntimeLoader_init w p = (tr, inr ld) →
     ∀ k S, downtime_data ld !! k = Some S → ∃ m, m ∈ S).
Proof.
  split_and!; intros tr ld.
  - rewrite DemandLoader_init_eq.
    intros (df & table & _ & Hrows & ->)%construct_ok; [|apply demand_body_silent].
    eapply for_rows_inhabited; [apply demand_body_silent| |exact Hrows].
    intros t row t'. rewrite demand_body_eq. cbn [snd].
    destruct (row !! "product_id"), (row !! "week_id"), (row !! "demand"); try done.
    intros [= <-]. apply put_last_writes.
  - rewrite CapacityLoader_init_eq.
    intros (df & table & _ & Hrows & ->)%construct_ok; [|apply capacity_body_silent].
    eapply for_rows_inhabited; [apply capacity_body_silent| |exact Hrows].
    intros t row t'. rewrite capacity_body_eq. cbn [snd].
    destruct (row !! "machine_id"), (row !! "product_id"), (row !! "week_cap"); try done.
    intros [= <-]. apply put_last_writes.
  - rewrite TranstimeLoader_init_eq.
    intros (df & table & _ & Hrows & ->)%construct_ok; [|apply transition_body_silent].
    eapply for_rows_inhabited; [apply transition_body_silent| |exact Hrows].
    intros t row t'. rewrite transition_body_eq. cbn [snd].
    destruct (row !! "machine_Id"), (row !! "from"), (row !! "to"),
      (row !! "trans_time_days"); try done.
    intros [= <-]. apply put_first_writes.
  - rewrite DowntimeLoader_init_eq.
    intros (df & table & _ & Hrows & ->)%construct_ok; [|apply downtime_body_silent].
    eapply for_rows_inhabited; [apply downtime_body_silent| |exact Hrows].
    intros t row t'. rewrite downtime_body_eq. cbn [snd].
    destruct (row !! "machine_Id"), (row !! "week_id"); try done.
    intros [= <-]. apply put_member_writes.
Qed.

Lemma outer_keys_have_entries_witness :
  (∃ week v, ({[ cs "week_1" := CInt 30 ]} : gmap cell cell) !! week = Some v)
  ∧ (∃ pair v, ({[ (cs "product_1", cs "product_2") := CInt 3 ]} : gmap (cell * cell) cell) !! pair
               = Some v)
  ∧ (∃ m, m ∈ ({[ cs "machine_1" ]} : gset cell)).
Proof.
  split_and!.
  - destruct (outer_keys_have_entries (table_world demand_xlsx demand_rows_dup) demand_xlsx)
      as (Hdemand & _).
    apply (Hdemand [ReadExcel demand_xlsx] (mkDemandLoader demand_table_dup)
             ltac:(vm_compute; reflexivity) (cs "product_1")).
    vm_compute. reflexivity.
  - destruct (outer_keys_have_entries transition_world transition_csv)
      as (_ & _ & Htrans & _).
    apply (Htrans [ReadCsv transition_csv] (mkTranstimeLoader transition_table)
             ltac:(vm_compute; reflexivity) (cs "machine_1")).
    vm_compute. reflexivity.
  - destruct (outer_keys_have_entries (table_world downtime_xlsx downtime_rows) downtime_xlsx)
      as (_ & _ & _ & Hdown).
    apply (Hdown [ReadExcel downtime_xlsx] (mkDowntimeLoader downtime_table)
             ltac:(vm_compute; reflexivity) (cs "week_2")).
    vm_compute. reflexivity.
Defined.

(** ** Failures *)

Lemma construct_error {T L} (frame : M DataFrame) (body : T → Series → M T) (mk : T → L)
    (t0 : T) tr e :
  (∀ t row, (body t row).1 = []) →
  construct frame body mk t0 = (tr, inl e) →
  frame = (tr, inl e) ∨ ∃ df, frame = (tr, inr df) ∧ for_rows df body t0 = ([], inl e).
Proof.
  intros Hsil. unfold construct. rewrite !bind_unfold. destruct frame as [t1 [e1|df]]; simpl.
  - intros [= <- <-]. by left.
  - pose proof (for_rows_silent body df t0 Hsil) as Hnil.
    destruct (for_rows df body t0) as [t2 [e2|t]] eqn:Hrows; simpl in *; subst t2;
      rewrite ?app_nil_r.
    + intros [= <- <-]. right. eauto.
    + done.
Qed.

(** The loop raises nothing that its body does not raise. *)
Lemma for_rows_error {T} (body : T → Series → M T) (E : exn → Prop) (rows : DataFrame) (t0 : T) tr e :
  (∀ t row tr e, body t row = (tr, inl e) → E e) →
  for_rows rows body t0 = (tr, inl e) → E e.
Proof.
  intros Hbody. revert t0 tr. induction rows as [|row rows IH]; intros t0 tr; cbn [for_rows]; [done|].
  rewrite bind_unfold. destruct (body t0 row) as [t1 [e1|t]] eqn:Hrow.
  - intros [= <- <-]. eauto.
  - destruct (for_rows rows body t) as [t2 r] eqn:Hrest. simpl. intros [= <- ->]. eauto.
Qed.

Lemma demand_body_error t row tr e : demand_body t row = (tr, inl e) → is_KeyError e.
Proof.
  rewrite demand_body_eq.
  destruct (row !! "product_id"), (row !! "week_id"), (row !! "demand");
    intros [= <- <-]; by eexists.
Qed.

Lemma capacity_body_error t row tr e : capacity_body t row = (tr, inl e) → is_KeyError e.
Proof.
  rewrite capacity_body_eq.
  destruct (row !! "machine_id"), (row !! "product_id"), (row !! "week_cap");
    intros [= <- <-]; by eexists.
Qed.

Lemma transition_body_error t row tr e : transition_body t row = (tr, inl e) → is_KeyError e.
Proof.
  rewrite transition_body_eq.
  destruct (row !! "machine_Id"), (row !! "from"), (row !! "to"), (row !! "trans_time_days");
    intros [= <- <-]; by eexists.
Qed.

Lemma downtime_body_error t row tr e : downtime_body t row = (tr, inl e) → is_KeyError e.
Proof.
  rewrite downtime_body_eq.
  destruct (row !! "machine_Id"), (row !! "week_id"); intros [= <- <-]; by eexists.
Qed.

Lemma reader_error w parse p e : reader w parse p = inl e → is_reader_error p e.
Proof.
  unfold reader, is_reader_error. destruct (fs w p) as [content|]; [|intros [= <-]; by left].
  destruct (parse content); [done|]. intros [= <-]. by right.
Qed.

(** A construction that goes through a reader ends in a table, in an
    exception of the reader, or in a [KeyError] of the loop. *)
Lemma construct_reader_error {T L} w (read : Path → M DataFrame) ev parse
    (body : T → Series → M T) (mk : T → L) (t0 : T) p tr e :
  (∀ t row, (body t row).1 = []) →
  (∀ t row tr e, body t row = (tr, inl e) → is_KeyError e) →
  read p = ([ev], reader w parse p) →
  construct (read p) body mk t0 = (tr, inl e) →
  tr = [ev] ∧ (is_reader_error p e ∨ is_KeyError e).
Proof.
  intros Hsil Herr Hread [Hframe | (df & Hframe & Hrows)]%construct_error; [| |done].
  - rewrite Hread in Hframe. injection Hframe as <- Hr. split; [done|]. left. by eapply reader_error.
  - rewrite Hread in Hframe. injection Hframe as <- Hr. split; [done|]. right.
    by eapply for_rows_error.
Qed.

(** A path that [validate_file_path] lets through exists and has an
    accepted suffix. *)
Lemma validate_file_path_ok w p tr p' :
  validate_file_path w p = (tr, inr p') →
  tr = [Exists p] ∧ p' = p ∧ is_Some (fs w p) ∧ lower (suffix p) ∈ accepted_suffixes.
Proof.
  unfold validate_file_path, path_exists. rewrite bind_unfold. cbn [fst snd].
  destruct (bool_decide (is_Some (fs w p))) eqn:Hex; cbn [negb]; [|done].
  destruct (bool_decide (lower (suffix p) ∉ accepted_suffixes)) eqn:Hsuf; [done|].
  cbn. intros [= <- <-]. apply bool_decide_eq_true in Hex. apply bool_decide_eq_false in Hsuf.
  split_and!; [done..|]. by apply dec_stable.
Qed.

(** C7.  When the lower-cased suffix of the path is one of those that
    [validate_file_path] accepts, [load_transition_times] and
    [load_downtime_data] take one of their two reader branches: the branch
    raising the unsupported-format [ValueError] is not taken, and neither
    construction ends in a [ValueError]. *)
Theorem format_check_unreachable (w : World) (p : Path) :
  lower (suffix p) ∈ accepted_suffixes →
  (transition_df w p = read_csv w p ∨ transition_df w p = read_excel w p) ∧
  (downtime_df w p = read_csv w p ∨ downtime_df w p = read_excel w p) ∧
  (∀ tr msg, TranstimeLoader_init w p ≠ (tr, inl (ValueError msg))) ∧
  (∀ tr msg, DowntimeLoader_init w p ≠ (tr, inl (ValueError msg))).
Proof.
  unfold accepted_suffixes. rewrite elem_of_union, !elem_of_singleton. intros Hsuf.
  assert (transition_df w p = read_csv w p ∨ transition_df w p = read_excel w p) as Htr.
  { unfold transition_df. repeat case_decide; auto. by destruct Hsuf. }
  assert (downtime_df w p = read_csv w p ∨ downtime_df w p = read_excel w p) as Hdt.
  { unfold downtime_df. repeat case_decide; auto. by destruct Hsuf. }
  split_and!; [done..| |].
  - intros tr msg. rewrite TranstimeLoader_init_eq. destruct Htr as [-> | ->]; intros Hrun;
      eapply construct_reader_error in Hrun as [_ [[?|?] | [? ?]]];
      first [done | apply transition_body_silent | apply transition_body_error].
  - intros tr msg. rewrite DowntimeLoader_init_eq. destruct Hdt as [-> | ->]; intros Hrun;
      eapply construct_reader_error in Hrun as [_ [[?|?] | [? ?]]];
      first [done | apply downtime_body_silent | apply downtime_body_error].
Qed.

Lemma format_check_unreachable_witness :
  lower (suffix times_XLSX) ∈ accepted_suffixes
  ∧ transition_df (table_world times_XLSX transition_rows) times_XLSX
    = ([ReadExcel times_XLSX], inr transition_rows)
  ∧ ∀ tr msg, TranstimeLoader_init (table_world times_XLSX transition_rows) times_XLSX
              ≠ (tr, inl (ValueError msg)).
Proof.
  assert (lower (suffix times_XLSX) ∈ accepted_suffixes) as Hsuf
    by (apply (bool_decide_unpack _); vm_compute; exact I).
  split; [exact Hsuf|]. split; [vm_compute; reflexivity|].
  apply (format_check_unreachable (table_world times_XLSX transition_rows) times_XLSX Hsuf).
Defined.

(** C9.  When the lower-cased suffix is not [.csv], whatever else it is,
    [load_demand_data] and [load_capacity_data] hand the path to
    [pd.read_excel]: that call is the whole trace of the construction, and
    the construction never ends in a [ValueError] or a [ValidationError]
    of the loader's own. *)
Theorem demand_capacity_fall_through_to_excel (w : World) (p : Path) :
  lower (suffix p) ≠ ".csv" →
  demand_df w p = read_excel w p ∧ capacity_df w p = read_excel w p ∧
  (DemandLoader_init w p).1 = [ReadExcel p] ∧ (CapacityLoader_init w p).1 = [ReadExcel p] ∧
  (∀ tr e, DemandLoader_init w p = (tr, inl e) → is_reader_error p e ∨ is_KeyError e) ∧
  (∀ tr e, CapacityLoader_init w p = (tr, inl e) → is_reader_error p e ∨ is_KeyError e).
Proof.
  intros Hsuf.
  assert (demand_df w p = read_excel w p) as Hd by (unfold demand_df; by rewrite decide_False).
  assert (capacity_df w p = read_excel w p) as Hc by (unfold capacity_df; by rewrite decide_False).
  split_and!; [done..| | | |].
  - rewrite DemandLoader_init_eq, construct_trace, Hd; [done|apply demand_body_silent].
  - rewrite CapacityLoader_init_eq, construct_trace, Hc; [done|apply capacity_body_silent].
  - intros tr e. rewrite DemandLoader_init_eq, Hd. intros Hrun.
    eapply construct_reader_error in Hrun as [_ Hcases];
      first [done | apply demand_body_silent | apply demand_body_error].
  - intros tr e. rewrite CapacityLoader_init_eq, Hc. intros Hrun.
    eapply construct_reader_error in Hrun as [_ Hcases];
      first [done | apply capacity_body_silent | apply capacity_body_error].
Qed.

Lemma demand_capacity_fall_through_to_excel_witness :
  lower (suffix notes_txt) ≠ ".csv"
  ∧ (lower (suffix notes_txt) ∉ accepted_suffixes)
  ∧ demand_df (text_world notes_txt) notes_txt = read_excel (text_world notes_txt) notes_txt
  ∧ (DemandLoader_init (text_world notes_txt) notes_txt).1 = [ReadExcel notes_txt].
Proof.
  assert (lower (suffix notes_txt) ≠ ".csv") as Hsuf by (vm_compute; discriminate).
  split; [exact Hsuf|].
  split; [apply (bool_decide_unpack _); vm_compute; exact I|].
  destruct (demand_capacity_fall_through_to_excel (text_world notes_txt) notes_txt Hsuf)
    as (Hd & _ & Htrace & _).
  split; [exact Hd|exact Htrace].
Defined.

(** ** Dispatch on the suffix *)

Lemma demand_df_cases w p : demand_df w p = read_csv w p ∨ demand_df w p = read_excel w p.
Proof. unfold demand_df. case_decide; auto. Qed.

Lemma capacity_df_cases w p : capacity_df w p = read_csv w p ∨ capacity_df w p = read_excel w p.
Proof. unfold capacity_df. case_decide; auto. Qed.

Lemma not_accepted_suffix (s : string) :
  s ∉ accepted_suffixes ↔ s ≠ ".csv" ∧ s ≠ ".xlsx".
Proof.
  unfold accepted_suffixes. rewrite not_elem_of_union, !not_elem_of_singleton. done.
Qed.

Lemma transition_df_cases w p :
  transition_df w p = read_csv w p ∨ transition_df w p = read_excel w p ∨
  ((lower (suffix p) ∉ accepted_suffixes) ∧ transition_df w p = raise (ValueError unsupported_format)).
Proof. unfold transition_df. rewrite not_accepted_suffix. repeat case_decide; auto. Qed.

Lemma downtime_df_cases w p :
  downtime_df w p = read_csv w p ∨ downtime_df w p = read_excel w p ∨
  ((lower (suffix p) ∉ accepted_suffixes) ∧ downtime_df w p = raise (ValueError unsupported_format)).
Proof. unfold downtime_df. rewrite not_accepted_suffix. repeat case_decide; auto. Qed.

Lemma transition_df_rejects w p :
  lower (suffix p) ∉ accepted_suffixes → transition_df w p = raise (ValueError unsupported_format).
Proof. rewrite not_accepted_suffix. intros [? ?]. unfold transition_df. by rewrite !decide_False. Qed.

Lemma downtime_df_rejects w p :
  lower (suffix p) ∉ accepted_suffixes → downtime_df w p = raise (ValueError unsupported_format).
Proof. rewrite not_accepted_suffix. intros [? ?]. unfold downtime_df. by rewrite !decide_False. Qed.

Lemma TranstimeLoader_rejects w p :
  lower (suffix p) ∉ accepted_suffixes →
  TranstimeLoader_init w p = ([], inl (ValueError unsupported_format)).
Proof. intros Hsuf. by rewrite TranstimeLoader_init_eq, transition_df_rejects. Qed.

Lemma DowntimeLoader_rejects w p :
  lower (suffix p) ∉ accepted_suffixes →
  DowntimeLoader_init w p = ([], inl (ValueError unsupported_format)).
Proof. intros Hsuf. by rewrite DowntimeLoader_init_eq, downtime_df_rejects. Qed.

(** C5 at an existing [input/notes.txt]: [DemandLoader] and
    [CapacityLoader] raise no [ValidationError]; the path is handed to
    [pd.read_excel] and the exception is the parser's.  [TranstimeLoader]
    and [DowntimeLoader] raise the unsupported-format [ValueError] of
    their own check.  Had [validate_file_path] been a registered
    validator, the construction of [FileInput] would have ended in a
    [ValidationError] for the suffix. *)
Theorem unsupported_suffix_reaches_excel_parser :
  is_Some (fs (text_world notes_txt) notes_txt)
  ∧ (lower (suffix notes_txt) ∉ accepted_suffixes)
  ∧ DemandLoader_init (text_world notes_txt) notes_txt = ([ReadExcel notes_txt], inl ParserError)
  ∧ CapacityLoader_init (text_world notes_txt) notes_txt = ([ReadExcel notes_txt], inl ParserError)
  ∧ ¬ (∃ tr errors, DemandLoader_init (text_world notes_txt) notes_txt
                    = (tr, inl (ValidationError errors)))
  ∧ ¬ (∃ tr errors, CapacityLoader_init (text_world notes_txt) notes_txt
                    = (tr, inl (ValidationError errors)))
  ∧ TranstimeLoader_init (text_world notes_txt) notes_txt
    = ([], inl (ValueError unsupported_format))
  ∧ DowntimeLoader_init (text_world notes_txt) notes_txt
    = ([], inl (ValueError unsupported_format))
  ∧ run_validators [validate_file_path (text_world notes_txt)] notes_txt
    = ([Exists notes_txt], inl (ValidationError [unsupported_format])).
Proof.
  assert (DemandLoader_init (text_world notes_txt) notes_txt
          = ([ReadExcel notes_txt], inl ParserError)) as Hdemand by (vm_compute; reflexivity).
  assert (CapacityLoader_init (text_world notes_txt) notes_txt
          = ([ReadExcel notes_txt], inl ParserError)) as Hcapacity by (vm_compute; reflexivity).
  split_and!.
  - vm_compute. eauto.
  - apply (bool_decide_unpack _). vm_compute. exact I.
  - exact Hdemand.
  - exact Hcapacity.
  - rewrite Hdemand. intros (tr & errors & Heq). discriminate Heq.
  - rewrite Hcapacity. intros (tr & errors & Heq). discriminate Heq.
  - vm_compute. reflexivity.
  - vm_compute. reflexivity.
  - vm_compute. reflexivity.
Qed.

(** ** The inert validator *)

(** C6.  [FileInput(file_path=p)] returns [p] as it is, with no outside
    call.  No construction asks whether a path exists and none ends in a
    [ValidationError].  [DemandLoader] and [CapacityLoader] always get as
    far as their reader; [TranstimeLoader] and [DowntimeLoader] stop
    before it only for a suffix outside the accepted ones, and then they
    do so in every world, whether the path exists there or not. *)
Theorem file_input_validation_is_inert (w : World) (p : Path) :
  FileInput_init p = ([], inr (mkFileInput p)) ∧
  (∀ q, (Exists q ∉ (DemandLoader_init w p).1) ∧ (Exists q ∉ (CapacityLoader_init w p).1) ∧
        (Exists q ∉ (TranstimeLoader_init w p).1) ∧ (Exists q ∉ (DowntimeLoader_init w p).1)) ∧
  (∀ tr errors,
     DemandLoader_init w p ≠ (tr, inl (ValidationError errors)) ∧
     CapacityLoader_init w p ≠ (tr, inl (ValidationError errors)) ∧
     TranstimeLoader_init w p ≠ (tr, inl (ValidationError errors)) ∧
     DowntimeLoader_init w p ≠ (tr, inl (ValidationError errors))) ∧
  ((DemandLoader_init w p).1 = [ReadCsv p] ∨ (DemandLoader_init w p).1 = [ReadExcel p]) ∧
  ((CapacityLoader_init w p).1 = [ReadCsv p] ∨ (CapacityLoader_init w p).1 = [ReadExcel p]) ∧
  ((TranstimeLoader_init w p).1 = [ReadCsv p] ∨ (TranstimeLoader_init w p).1 = [ReadExcel p] ∨
   ((lower (suffix p) ∉ accepted_suffixes) ∧
    ∀ w', TranstimeLoader_init w' p = ([], inl (ValueError unsupported_format)))) ∧
  ((DowntimeLoader_init w p).1 = [ReadCsv p] ∨ (DowntimeLoader_init w p).1 = [ReadExcel p] ∨
   ((lower (suffix p) ∉ accepted_suffixes) ∧
    ∀ w', DowntimeLoader_init w' p = ([], inl (ValueError unsupported_format)))).
Proof.
  assert ((DemandLoader_init w p).1 = [ReadCsv p] ∨ (DemandLoader_init w p).1 = [ReadExcel p])
    as Hd.
  { rewrite DemandLoader_init_eq, construct_trace by apply demand_body_silent.
    destruct (demand_df_cases w p) as [-> | ->]; auto. }
  assert ((CapacityLoader_init w p).1 = [ReadCsv p] ∨ (CapacityLoader_init w p).1 = [ReadExcel p])
    as Hc.
  { rewrite CapacityLoader_init_eq, construct_trace by apply capacity_body_silent.
    destruct (capacity_df_cases w p) as [-> | ->]; auto. }
  assert ((TranstimeLoader_init w p).1 = [ReadCsv p] ∨ (TranstimeLoader_init w p).1 = [ReadExcel p] ∨
          ((lower (suffix p) ∉ accepted_suffixes) ∧
           ∀ w', TranstimeLoader_init w' p = ([], inl (ValueError unsupported_format)))) as Ht.
  { rewrite TranstimeLoader_init_eq, construct_trace by apply transition_body_silent.
    destruct (transition_df_cases w p) as [-> | [-> | [Hsuf _]]]; auto.
    right. right. split; [done|]. intros w'. by apply TranstimeLoader_rejects. }
  assert ((DowntimeLoader_init w p).1 = [ReadCsv p] ∨ (DowntimeLoader_init w p).1 = [ReadExcel p] ∨
          ((lower (suffix p) ∉ accepted_suffixes) ∧
           ∀ w', DowntimeLoader_init w' p = ([], inl (ValueError unsupported_format)))) as Hw.
  { rewrite DowntimeLoader_init_eq, construct_trace by apply downtime_body_silent.
    destruct (downtime_df_cases w p) as [-> | [-> | [Hsuf _]]]; auto.
    right. right. split; [done|]. intros w'. by apply DowntimeLoader_rejects. }
  split_and!; [done| | |done..].
  - intros q. split_and!.
    + destruct Hd as [-> | ->]; by intros [=]%list_elem_of_singleton.
    + destruct Hc as [-> | ->]; by intros [=]%list_elem_of_singleton.
    + destruct Ht as [-> | [-> | [_ ->]]]; try (by intros [=]%list_elem_of_singleton).
      apply not_elem_of_nil.
    + destruct Hw as [-> | [-> | [_ ->]]]; try (by intros [=]%list_elem_of_singleton).
      apply not_elem_of_nil.
  - intros tr errors. split_and!.
    + rewrite DemandLoader_init_eq. intros Hrun.
      destruct (demand_df_cases w p) as [Heq | Heq]; rewrite Heq in Hrun;
        eapply construct_reader_error in Hrun as [_ [[?|?] | [? ?]]];
        first [done | apply demand_body_silent | apply demand_body_error].
    + rewrite CapacityLoader_init_eq. intros Hrun.
      destruct (capacity_df_cases w p) as [Heq | Heq]; rewrite Heq in Hrun;
        eapply construct_reader_error in Hrun as [_ [[?|?] | [? ?]]];
        first [done | apply capacity_body_silent | apply capacity_body_error].
    + rewrite TranstimeLoader_init_eq. intros Hrun.
      destruct (transition_df_cases w p) as [Heq | [Heq | [_ Heq]]]; rewrite Heq in Hrun;
        [| |done];
        eapply construct_reader_error in Hrun as [_ [[?|?] | [? ?]]];
        first [done | apply transition_body_silent | apply transition_body_error].
    + rewrite DowntimeLoader_init_eq. intros Hrun.
      destruct (downtime_df_cases w p) as [Heq | [Heq | [_ Heq]]]; rewrite Heq in Hrun;
        [| |done];
        eapply construct_reader_error in Hrun as [_ [[?|?] | [? ?]]];
        first [done | apply downtime_body_silent | apply downtime_body_error].
Qed.

(** ** A path that does not exist *)

(** C4 at [input/missing.csv] in a world without files: each of the four
    constructions calls [pd.read_csv] and ends in the reader's
    [FileNotFoundError]; had [validate_file_path] been a registered
    validator, the construction of [FileInput] would have ended in a
    [ValidationError] after the existence test alone. *)
Theorem nonexistent_path_reaches_reader :
  fs empty_world missing_csv = None
  ∧ DemandLoader_init empty_world missing_csv
    = ([ReadCsv missing_csv], inl (FileNotFoundError missing_csv))
  ∧ CapacityLoader_init empty_world missing_csv
    = ([ReadCsv missing_csv], inl (FileNotFoundError missing_csv))
  ∧ TranstimeLoader_init empty_world missing_csv
    = ([ReadCsv missing_csv], inl (FileNotFoundError missing_csv))
  ∧ DowntimeLoader_init empty_world missing_csv
    = ([ReadCsv missing_csv], inl (FileNotFoundError missing_csv))
  ∧ run_validators [validate_file_path empty_world] missing_csv
    = ([Exists missing_csv], inl (ValidationError ["File 'input/missing.csv' does not exist."])).
Proof. split_and!; vm_compute; reflexivity. Qed.

(** * Further properties *)

(** ** Rows that carry the required columns *)

Lemma first_missing_None (labels : list string) (row : Series) :
  first_missing labels row = None ↔ has_columns labels row.
Proof.
  unfold has_columns. induction labels as [|l labels IH]; cbn [first_missing].
  - split; [constructor|done].
  - rewrite Forall_cons. destruct (row !! l) as [c|] eqn:Hl.
    + rewrite IH. split; [by split; [eexists|]|by intros [_ ?]].
    + split; [done|]. by intros [[? [=]] _].
Qed.

Lemma first_missing_Some (labels : list string) (row : Series) (l : string) :
  first_missing labels row = Some l → l ∈ labels ∧ row !! l = None.
Proof.
  induction labels as [|l0 labels IH]; cbn [first_missing]; [done|].
  destruct (row !! l0) eqn:Hl0.
  - intros [Hin Hnone]%IH. split; [by right|done].
  - intros [= <-]. split; [by left|done].
Qed.

Lemma demand_body_columns t row :
  demand_body t row =
  ([], match first_missing demand_columns row with
       | Some l => inl (KeyError (CStr l))
       | None => (demand_body t row).2
       end).
Proof.
  rewrite demand_body_eq. cbn [first_missing demand_columns snd].
  by destruct (row !! "product_id"), (row !! "week_id"), (row !! "demand").
Qed.

Lemma capacity_body_columns t row :
  capacity_body t row =
  ([], match first_missing capacity_columns row with
       | Some l => inl (KeyError (CStr l))
       | None => (capacity_body t row).2
       end).
Proof.
  rewrite capacity_body_eq. cbn [first_missing capacity_columns snd].
  by destruct (row !! "machine_id"), (row !! "product_id"), (row !! "week_cap").
Qed.

Lemma transition_body_columns t row :
  transition_body t row =
  ([], match first_missing transition_columns row with
       | Some l => inl (KeyError (CStr l))
       | None => (transition_body t row).2
       end).
Proof.
  rewrite transition_body_eq. cbn [first_missing transition_columns snd].
  by destruct (row !! "machine_Id"), (row !! "from"), (row !! "to"), (row !! "trans_time_days").
Qed.

Lemma downtime_body_columns t row :
  downtime_body t row =
  ([], match first_missing downtime_columns row with
       | Some l => inl (KeyError (CStr l))
       | None => (downtime_body t row).2
       end).
Proof.
  rewrite downtime_body_eq. cbn [first_missing downtime_columns snd].
  by destruct (row !! "machine_Id"), (row !! "week_id").
Qed.

Lemma demand_body_complete t row :
  first_missing demand_columns row = None → ∃ t', (demand_body t row).2 = inr t'.
Proof.
  rewrite demand_body_eq. cbn [first_missing demand_columns snd].
  destruct (row !! "product_id"), (row !! "week_id"), (row !! "demand"); try done. by eexists.
Qed.

Lemma capacity_body_complete t row :
  first_missing capacity_columns row = None → ∃ t', (capacity_body t row).2 = inr t'.
Proof.
  rewrite capacity_body_eq. cbn [first_missing capacity_columns snd].
  destruct (row !! "machine_id"), (row !! "product_id"), (row !! "week_cap"); try done. by eexists.
Qed.

Lemma transition_body_complete t row :
  first_missing transition_columns row = None → ∃ t', (transition_body t row).2 = inr t'.
Proof.
  rewrite transition_body_eq. cbn [first_missing transition_columns snd].
  destruct (row !! "machine_Id"), (row !! "from"), (row !! "to"), (row !! "trans_time_days");
    try done. by eexists.
Qed.

Lemma downtime_body_complete t row :
  first_missing downtime_columns row = None → ∃ t', (downtime_body t row).2 = inr t'.
Proof.
  rewrite downtime_body_eq. cbn [first_missing downtime_columns snd].
  destruct (row !! "machine_Id"), (row !! "week_id"); try done. by eexists.
Qed.

Section ColumnLoop.

Context {T L : Type} (body : T → Series → M T) (labels : list string) (mk : T → L) (t0 : T).
Hypothesis body_columns : ∀ t row,
  body t row = ([], match first_missing labels row with
                    | Some l => inl (KeyError (CStr l))
                    | None => (body t row).2
                    end).
Hypothesis body_complete : ∀ t row,
  first_missing labels row = None → ∃ t', (body t row).2 = inr t'.

Lemma column_body_silent t row : (body t row).1 = [].
Proof. by rewrite body_columns. Qed.

(** The loop succeeds exactly on frames whose rows all carry the
    columns. *)
Lemma column_loop_ok (rows : DataFrame) (t : T) :
  (∃ t', for_rows rows body t = ([], inr t')) ↔ Forall (has_columns labels) rows.
Proof.
  revert t. induction rows as [|row rows IH]; intros t; cbn [for_rows].
  - split; [constructor|]. by exists t.
  - rewrite Forall_cons, <- first_missing_None. rewrite body_columns.
    destruct (first_missing labels row) as [l|] eqn:Hmiss.
    + split; [by intros [? ?]|by intros [? _]].
    + destruct (body_complete t row Hmiss) as [t1 ->]. rewrite bind_silent, IH.
      split; [by split|by intros [_ ?]].
Qed.

Lemma column_construct_ok (frame : M DataFrame) :
  (∃ tr ld, construct frame body mk t0 = (tr, inr ld)) ↔
  ∃ tr df, frame = (tr, inr df) ∧ Forall (has_columns labels) df.
Proof.
  split.
  - intros (tr & ld & (df & t & Hframe & Hrows & _)%construct_ok);
      [|apply column_body_silent].
    exists tr, df. split; [done|]. apply (column_loop_ok df t0). eauto.
  - intros (tr & df & Hframe & Hall). apply (column_loop_ok df t0) in Hall as [t Hrows].
    exists tr, (mk t). apply construct_ok; [apply column_body_silent|]. eauto.
Qed.

End ColumnLoop.

(** ** Missing columns *)

Lemma first_missing_split (labels : list string) (row : Series) (l : string) :
  first_missing labels row = Some l →
  ∃ before after, labels = before ++ l :: after
                  ∧ Forall (λ c, is_Some (row !! c)) before ∧ row !! l = None.
Proof.
  revert l. induction labels as [|l0 labels IH]; intros l; cbn [first_missing]; [done|].
  destruct (row !! l0) as [c|] eqn:Hl0.
  - intros (before & after & -> & Hbefore & Hnone)%IH.
    exists (l0 :: before), after. split_and!; [done| |done]. constructor; [by eexists|done].
  - intros [= <-]. exists [], labels. split_and!; [done|constructor|done].
Qed.

Lemma first_missing_is_Some (labels : list string) (row : Series) (label : string) :
  label ∈ labels → row !! label = None → is_Some (first_missing labels row).
Proof.
  intros Hin Hnone. destruct (first_missing labels row) as [l|] eqn:Hmiss; [by eexists|].
  apply first_missing_None in Hmiss. unfold has_columns in Hmiss.
  rewrite Forall_forall in Hmiss. destruct (Hmiss label Hin) as [c Hc]. congruence.
Qed.

Section FirstRow.

Context {T L : Type} (body : T → Series → M T) (labels : list string) (mk : T → L) (t0 : T).
Hypothesis body_columns : ∀ t row,
  body t row = ([], match first_missing labels row with
                    | Some l => inl (KeyError (CStr l))
                    | None => (body t row).2
                    end).

(** A first row that lacks a column stops the construction, with the
    [KeyError] of the first column, in reading order, that it lacks. *)
Lemma construct_first_row_missing (frame : M DataFrame) tr row rest label :
  label ∈ labels → row !! label = None → frame = (tr, inr (row :: rest)) →
  ∃ before l after,
    labels = before ++ l :: after ∧ Forall (λ c, is_Some (row !! c)) before ∧ row !! l = None ∧
    body t0 row = ([], inl (KeyError (CStr l))) ∧
    construct frame body mk t0 = (tr, inl (KeyError (CStr l))).
Proof.
  intros Hin Hnone Hframe.
  destruct (first_missing_is_Some labels row label Hin Hnone) as [l Hmiss].
  destruct (first_missing_split _ _ _ Hmiss) as (before & after & Hlabels & Hbefore & Hl).
  assert (body t0 row = ([], inl (KeyError (CStr l)))) as Hbody
    by (by rewrite body_columns, Hmiss).
  exists before, l, after. split_and!; [done..|]. by eapply construct_fail_first_row.
Qed.

(** A frame without rows gives the initial table. *)
Lemma construct_no_rows (frame : M DataFrame) tr :
  frame = (tr, inr []) → construct frame body mk t0 = (tr, inr (mk t0)).
Proof.
  intros ->. unfold construct. rewrite !bind_unfold. cbn. by rewrite !app_nil_r.
Qed.

End FirstRow.

(** C8, as the code has it.  When the frame has a first row and that row
    lacks one of the loader's columns, the loop body raises [KeyError] on
    that first row, for the first column in the order the body reads them
    that the row lacks (every column read before it is there), and the
    construction ends in that exception: no loader object, hence no table,
    is returned.  When the frame has no rows the construction succeeds
    with the empty table. *)
Theorem missing_column_fails_on_first_row (w : World) (p : Path) tr
    (row : Series) (rest : DataFrame) (label : string) :
  (row !! label = None →
   (label ∈ ["product_id"; "week_id"; "demand"] →
    demand_df w p = (tr, inr (row :: rest)) →
    ∃ before missing after,
      ["product_id"; "week_id"; "demand"] = before ++ missing :: after ∧
      Forall (λ c, is_Some (row !! c)) before ∧ row !! missing = None ∧
      demand_body ∅ row = ([], inl (KeyError (CStr missing))) ∧
      DemandLoader_init w p = (tr, inl (KeyError (CStr missing)))) ∧
   (label ∈ ["machine_id"; "product_id"; "week_cap"] →
    capacity_df w p = (tr, inr (row :: rest)) →
    ∃ before missing after,
      ["machine_id"; "product_id"; "week_cap"] = before ++ missing :: after ∧
      Forall (λ c, is_Some (row !! c)) before ∧ row !! missing = None ∧
      capacity_body ∅ row = ([], inl (KeyError (CStr missing))) ∧
      CapacityLoader_init w p = (tr, inl (KeyError (CStr missing)))) ∧
   (label ∈ ["machine_Id"; "from"; "to"; "trans_time_days"] →
    transition_df w p = (tr, inr (row :: rest)) →
    ∃ before missing after,
      ["machine_Id"; "from"; "to"; "trans_time_days"] = before ++ missing :: after ∧
      Forall (λ c, is_Some (row !! c)) before ∧ row !! missing = None ∧
      transition_body ∅ row = ([], inl (KeyError (CStr missing))) ∧
      TranstimeLoader_init w p = (tr, inl (KeyError (CStr missing)))) ∧
   (label ∈ ["machine_Id"; "week_id"] →
    downtime_df w p = (tr, inr (row :: rest)) →
    ∃ before missing after,
      ["machine_Id"; "week_id"] = before ++ missing :: after ∧
      Forall (λ c, is_Some (row !! c)) before ∧ row !! missing = None ∧
      downtime_body ∅ row = ([], inl (KeyError (CStr missing))) ∧
      DowntimeLoader_init w p = (tr, inl (KeyError (CStr missing))))) ∧
  (demand_df w p = (tr, inr []) → DemandLoader_init w p = (tr, inr (mkDemandLoader ∅))) ∧
  (capacity_df w p = (tr, inr []) → CapacityLoader_init w p = (tr, inr (mkCapacityLoader ∅))) ∧
  (transition_df w p = (tr, inr []) →
   TranstimeLoader_init w p = (tr, inr (mkTranstimeLoader ∅))) ∧
  (downtime_df w p = (tr, inr []) → DowntimeLoader_init w p = (tr, inr (mkDowntimeLoader ∅))).
Proof.
  rewrite DemandLoader_init_eq, CapacityLoader_init_eq, TranstimeLoader_init_eq,
    DowntimeLoader_init_eq.
  split_and!; [|apply construct_no_rows..].
  intros Hlabel. split_and!; intros Hin Hframe.
  - by eapply (construct_first_row_missing demand_body demand_columns);
      [apply demand_body_columns|..].
  - by eapply (construct_first_row_missing capacity_body capacity_columns);
      [apply capacity_body_columns|..].
  - by eapply (construct_first_row_missing transition_body transition_columns);
      [apply transition_body_columns|..].
  - by eapply (construct_first_row_missing downtime_body downtime_columns);
      [apply downtime_body_columns|..].
Qed.

(** A row without [product_id] and without [week_id]: the exception
    names [product_id], the column read first. *)
Lemma missing_column_fails_on_first_row_witness :
  demand_row_only_demand !! "week_id" = None
  ∧ DemandLoader_init (table_world demand_xlsx [demand_row_only_demand]) demand_xlsx
    = ([ReadExcel demand_xlsx], inl (KeyError (CStr "product_id"))).
Proof.
  assert (demand_row_only_demand !! "week_id" = None) as Hweek by (vm_compute; reflexivity).
  split; [exact Hweek|].
  destruct (missing_column_fails_on_first_row
              (table_world demand_xlsx [demand_row_only_demand]) demand_xlsx
              [ReadExcel demand_xlsx] demand_row_only_demand [] "week_id") as [Hrow _].
  destruct (Hrow Hweek) as (Hdemand & _).
  destruct Hdemand as (before & missing & after & Hsplit & Hbefore & _ & _ & Hrun).
  - repeat constructor.
  - vm_compute. reflexivity.
  - destruct before as [|c before].
    + injection Hsplit as <- _. exact Hrun.
    + injection Hsplit as <- _. apply Forall_cons in Hbefore as [[v Hv] _].
      vm_compute in Hv. discriminate Hv.
Defined.

(** C8, as stated, fails: a frame without rows lacks every column in
    each of its rows, and the construction succeeds with the empty
    table. *)
Lemma missing_column_empty_frame_loads :
  Forall (λ r : Series, r !! "product_id" = None) ([] : DataFrame)
  ∧ demand_df (table_world demand_xlsx []) demand_xlsx = ([ReadExcel demand_xlsx], inr [])
  ∧ DemandLoader_init (table_world demand_xlsx []) demand_xlsx
    = ([ReadExcel demand_xlsx], inr (mkDemandLoader ∅))
  ∧ ¬ (∃ tr key, DemandLoader_init (table_world demand_xlsx []) demand_xlsx
                 = (tr, inl (KeyError key))).
Proof.
  assert (DemandLoader_init (table_world demand_xlsx []) demand_xlsx
          = ([ReadExcel demand_xlsx], inr (mkDemandLoader ∅))) as Hrun by (vm_compute; reflexivity).
  split_and!; [constructor | vm_compute; reflexivity | exact Hrun |].
  rewrite Hrun. intros (tr & key & Heq). discriminate Heq.
Qed.

(** X2.  A construction succeeds exactly when its reader returns a frame
    and every row of the frame carries the loader's columns: there is no
    other way to fail after the read, and no row is skipped. *)
Theorem construction_succeeds_iff_columns (w : World) (p : Path) :
  ((∃ tr ld, DemandLoader_init w p = (tr, inr ld)) ↔
   ∃ tr df, demand_df w p = (tr, inr df) ∧ Forall (has_columns demand_columns) df) ∧
  ((∃ tr ld, CapacityLoader_init w p = (tr, inr ld)) ↔
   ∃ tr df, capacity_df w p = (tr, inr df) ∧ Forall (has_columns capacity_columns) df) ∧
  ((∃ tr ld, TranstimeLoader_init w p = (tr, inr ld)) ↔
   ∃ tr df, transition_df w p = (tr, inr df) ∧ Forall (has_columns transition_columns) df) ∧
  ((∃ tr ld, DowntimeLoader_init w p = (tr, inr ld)) ↔
   ∃ tr df, downtime_df w p = (tr, inr df) ∧ Forall (has_columns downtime_columns) df).
Proof.
  rewrite DemandLoader_init_eq, CapacityLoader_init_eq, TranstimeLoader_init_eq,
    DowntimeLoader_init_eq.
  split_and!.
  - apply column_construct_ok; [apply demand_body_columns|apply demand_body_complete].
  - apply column_construct_ok; [apply capacity_body_columns|apply capacity_body_complete].
  - apply column_construct_ok; [apply transition_body_columns|apply transition_body_complete].
  - apply column_construct_ok; [apply downtime_body_columns|apply downtime_body_complete].
Qed.

(** ** Capacity *)

Lemma capacity_loop_last (df : DataFrame) tr (table : gmap cell (gmap cell cell)) :
  for_rows df capacity_body ∅ = (tr, inr table) →
  ∀ machine product v,
    table !! machine ≫= (.!! product) = Some v ↔
    ∃ r, last_row_with (λ r, r !! "machine_id" = Some machine ∧ r !! "product_id" = Some product) df r
         ∧ r !! "week_cap" = Some v.
Proof.
  intros Hrows machine product v.
  pose (key := λ r : Series, a ← r !! "machine_id"; b ← r !! "product_id"; Some (a, b)).
  destruct (last_write_wins capacity_body (λ t r, (capacity_body t r).2)
              (λ t k, t !! k.1 ≫= (.!! k.2)) key (λ r, r !! "week_cap") ∅
              (body_silent_eq _ capacity_body_silent)) with (rows := df) (tr := tr) (t := table)
    as [_ Hwins]; [done| |done|].
  - clear. intros t row t'. rewrite capacity_body_eq. cbn [snd]. unfold key.
    destruct (row !! "machine_id") as [a|], (row !! "product_id") as [b|],
      (row !! "week_cap") as [v|]; try done.
    intros [= <-]. exists (a, b), v. split_and!; [done..|].
    intros [a' b']. cbn [fst snd]. rewrite lookup_put_last.
    repeat case_decide; try done; congruence.
  - rewrite (Hwins (machine, product) v).
    split; intros (r & Hlast & Hval); exists r; (split; [|done]);
      revert Hlast; apply last_row_with_ext; clear; intros r; unfold key;
      destruct (r !! "machine_id"), (r !! "product_id"); cbn; intuition congruence.
Qed.

(** X1.  After a successful construction of [CapacityLoader],
    [capacity_data[m][p]] is the [week_cap] of the last row, in file
    order, whose [machine_id] and [product_id] are [m] and [p]. *)
Theorem capacity_last_write_wins (w : World) (p : Path) tr (ld : CapacityLoader) :
  CapacityLoader_init w p = (tr, inr ld) →
  ∃ df, capacity_df w p = (tr, inr df) ∧
    ∀ machine product v,
      capacity_data ld !! machine ≫= (.!! product) = Some v ↔
      ∃ r, last_row_with (λ r, r !! "machine_id" = Some machine
                               ∧ r !! "product_id" = Some product) df r
           ∧ r !! "week_cap" = Some v.
Proof.
  rewrite CapacityLoader_init_eq.
  intros (df & table & Hframe & Hrows & ->)%construct_ok; [|apply capacity_body_silent].
  exists df. split; [done|]. cbn [capacity_data]. by eapply capacity_loop_last.
Qed.

Lemma capacity_last_write_wins_witness :
  CapacityLoader_init (table_world capacity_xlsx capacity_rows_dup) capacity_xlsx
    = ([ReadExcel capacity_xlsx], inr (mkCapacityLoader capacity_table_dup))
  ∧ ∃ r, last_row_with (λ r, r !! "machine_id" = Some (cs "machine_1")
                             ∧ r !! "product_id" = Some (cs "product_1")) capacity_rows_dup r
         ∧ r !! "week_cap" = Some (CInt 80).
Proof.
  assert (CapacityLoader_init (table_world capacity_xlsx capacity_rows_dup) capacity_xlsx
          = ([ReadExcel capacity_xlsx], inr (mkCapacityLoader capacity_table_dup))) as Hrun
    by (vm_compute; reflexivity).
  split; [exact Hrun|].
  destruct (capacity_last_write_wins _ _ _ _ Hrun) as (df & Hdf & Hlast).
  assert (capacity_df (table_world capacity_xlsx capacity_rows_dup) capacity_xlsx
          = ([ReadExcel capacity_xlsx], inr capacity_rows_dup)) as Hread
    by (vm_compute; reflexivity).
  assert (df = capacity_rows_dup) as -> by congruence.
  apply Hlast. vm_compute. reflexivity.
Defined.

(** ** Which keys a table has *)

Section Keys.

Context {T K : Type} `{EqDecision K}.
Context (body : T → Series → M T) (present : T → K → Prop) (key : Series → option K) (t0 : T).
Hypothesis body_silent : ∀ t row, (body t row).1 = [].
Hypothesis present_t0 : ∀ k, ¬ present t0 k.
Hypothesis body_adds : ∀ t row t',
  (body t row).2 = inr t' →
  ∃ k, key row = Some k ∧ ∀ k', present t' k' ↔ k' = k ∨ present t k'.

(** A key is in the table exactly when some row carries it. *)
Lemma for_rows_keys (rows : DataFrame) tr (t : T) :
  for_rows rows body t0 = (tr, inr t) →
  ∀ k, present t k ↔ ∃ r, r ∈ rows ∧ key r = Some k.
Proof.
  intros Hrun.
  apply (for_rows_ok_ind body (λ t r, (body t r).2) (body_silent_eq _ body_silent)
           (λ rows t, ∀ k, present t k ↔ ∃ r, r ∈ rows ∧ key r = Some k)) in Hrun as [_ Hkeys];
    [done| |].
  - intros k. split; [by intros ?%present_t0|]. intros (r & Hr & _). by apply elem_of_nil in Hr.
  - intros rows1 row t1 t2 IH (k0 & Hk0 & Hadd)%body_adds k. rewrite Hadd, IH. split.
    + intros [-> | (r & Hr & Hk)].
      * exists row. split; [|done]. apply elem_of_app. right. by apply list_elem_of_singleton.
      * exists r. split; [|done]. apply elem_of_app. by left.
    + intros (r & [Hr | ->%list_elem_of_singleton]%elem_of_app & Hk).
      * right. eauto.
      * left. congruence.
Qed.

End Keys.

Lemma put_last_outer {K2 V} `{Countable K2} (k1 : cell) (k2 : K2) (v : V) t k' :
  is_Some (put_last k1 k2 v t !! k') ↔ k' = k1 ∨ is_Some (t !! k').
Proof.
  unfold put_last. destruct (decide (k' = k1)) as [->|Hne].
  - rewrite lookup_insert_eq. split; [by left|by eexists].
  - rewrite lookup_insert_ne by done. split; [by right|by intros [?|?]].
Qed.

Lemma put_first_outer {K2 V} `{Countable K2} (k1 : cell) (k2 : K2) (v : V) t k' :
  is_Some (put_first k1 k2 v t !! k') ↔ k' = k1 ∨ is_Some (t !! k').
Proof.
  unfold put_first. cbn. destruct (decide (k' = k1)) as [->|Hne].
  - rewrite lookup_insert_eq. split; [by left|by eexists].
  - rewrite lookup_insert_ne by done. split; [by right|by intros [?|?]].
Qed.

Lemma put_member_outer (k1 x : cell) (t : gmap cell (gset cell)) k' :
  is_Some (put_member k1 x t !! k') ↔ k' = k1 ∨ is_Some (t !! k').
Proof.
  unfold put_member. destruct (decide (k' = k1)) as [->|Hne].
  - rewrite lookup_insert_eq. split; [by left|by eexists].
  - rewrite lookup_insert_ne by done. split; [by right|by intros [?|?]].
Qed.

Lemma not_present_empty {X} (k : cell) : ¬ is_Some ((∅ : gmap cell X) !! k).
Proof. rewrite lookup_empty. by intros [? ?]. Qed.

(** X4.  The outer keys of a loaded table are exactly the values found in
    the loader's outer key column: the products of the demand file, the
    machines of the capacity and transition files, the weeks of the
    downtime file. *)
Theorem outer_keys_are_the_key_column (w : World) (p : Path) :
  (∀ tr ld, DemandLoader_init w p = (tr, inr ld) →
     ∃ df, demand_df w p = (tr, inr df) ∧
       ∀ k, k ∈ dom (demand_data ld) ↔ ∃ r, r ∈ df ∧ r !! "product_id" = Some k) ∧
  (∀ tr ld, CapacityLoader_init w p = (tr, inr ld) →
     ∃ df, capacity_df w p = (tr, inr df) ∧
       ∀ k, k ∈ dom (capacity_data ld) ↔ ∃ r, r ∈ df ∧ r !! "machine_id" = Some k) ∧
  (∀ tr ld, TranstimeLoader_init w p = (tr, inr ld) →
     ∃ df, transition_df w p = (tr, inr df) ∧
       ∀ k, k ∈ dom (transtime_data ld) ↔ ∃ r, r ∈ df ∧ r !! "machine_Id" = Some k) ∧
  (∀ tr ld, DowntimeLoader_init w p = (tr, inr ld) →
     ∃ df, downtime_df w p = (tr, inr df) ∧
       ∀ k, k ∈ dom (downtime_data ld) ↔ ∃ r, r ∈ df ∧ r !! "week_id" = Some k).
Proof.
  split_and!; intros tr ld.
  - rewrite DemandLoader_init_eq.
    intros (df & table & Hframe & Hrows & ->)%construct_ok; [|apply demand_body_silent].
    exists df. split; [done|]. intros k. rewrite elem_of_dom. cbn [demand_data].
    revert k. eapply (for_rows_keys demand_body (λ t k, is_Some (t !! k)));
      [apply demand_body_silent|apply not_present_empty| |exact Hrows].
    intros t row t'. rewrite demand_body_eq. cbn [snd].
    destruct (row !! "product_id") as [a|], (row !! "week_id"), (row !! "demand"); try done.
    intros [= <-]. exists a. split; [done|]. apply put_last_outer.
  - rewrite CapacityLoader_init_eq.
    intros (df & table & Hframe & Hrows & ->)%construct_ok; [|apply capacity_body_silent].
    exists df. split; [done|]. intros k. rewrite elem_of_dom. cbn [capacity_data].
    revert k. eapply (for_rows_keys capacity_body (λ t k, is_Some (t !! k)));
      [apply capacity_body_silent|apply not_present_empty| |exact Hrows].
    intros t row t'. rewrite capacity_body_eq. cbn [snd].
    destruct (row !! "machine_id") as [a|], (row !! "product_id"), (row !! "week_cap"); try done.
    intros [= <-]. exists a. split; [done|]. apply put_last_outer.
  - rewrite TranstimeLoader_init_eq.
    intros (df & table & Hframe & Hrows & ->)%construct_ok; [|apply transition_body_silent].
    exists df. split; [done|]. intros k. rewrite elem_of_dom. cbn [transtime_data].
    revert k. eapply (for_rows_keys transition_body (λ t k, is_Some (t !! k)));
      [apply transition_body_silent|apply not_present_empty| |exact Hrows].
    intros t row t'. rewrite transition_body_eq. cbn [snd].
    destruct (row !! "machine_Id") as [a|], (row !! "from"), (row !! "to"),
      (row !! "trans_time_days"); try done.
    intros [= <-]. exists a. split; [done|]. apply put_first_outer.
  - rewrite DowntimeLoader_init_eq.
    intros (df & table & Hframe & Hrows & ->)%construct_ok; [|apply downtime_body_silent].
    exists df. split; [done|]. intros k. rewrite elem_of_dom. cbn [downtime_data].
    revert k. eapply (for_rows_keys downtime_body (λ t k, is_Some (t !! k)));
      [apply downtime_body_silent|apply not_present_empty| |exact Hrows].
    intros t row t'. rewrite downtime_body_eq. cbn [snd].
    destruct (row !! "machine_Id"), (row !! "week_id") as [a|]; try done.
    intros [= <-]. exists a. split; [done|]. apply put_member_outer.
Qed.

Lemma outer_keys_are_the_key_column_witness :
  dom transition_table = {[ cs "machine_1"; cs "machine_2" ]}
  ∧ ∃ r, r ∈ transition_rows ∧ r !! "machine_Id" = Some (cs "machine_2").
Proof.
  split; [vm_compute; reflexivity|].
  destruct (outer_keys_are_the_key_column transition_world transition_csv)
    as (_ & _ & Htrans & _).
  destruct (Htrans [ReadCsv transition_csv] (mkTranstimeLoader transition_table)
              ltac:(vm_compute; reflexivity)) as (df & Hdf & Hkeys).
  assert (transition_df transition_world transition_csv
          = ([ReadCsv transition_csv], inr transition_rows)) as Hread
    by (vm_compute; reflexivity).
  assert (df = transition_rows) as -> by congruence.
  apply Hkeys. apply (bool_decide_unpack _). vm_compute. exact I.
Defined.

(** ** Files whose duplicates agree *)

Lemma demand_loop_last (df : DataFrame) tr (table : gmap cell (gmap cell cell)) :
  for_rows df demand_body ∅ = (tr, inr table) →
  ∀ product week v,
    table !! product ≫= (.!! week) = Some v ↔
    ∃ r, last_row_with (λ r, r !! "product_id" = Some product ∧ r !! "week_id" = Some week) df r
         ∧ r !! "demand" = Some v.
Proof.
  intros Hrows product week v.
  pose (key := λ r : Series, a ← r !! "product_id"; b ← r !! "week_id"; Some (a, b)).
  destruct (last_write_wins demand_body (λ t r, (demand_body t r).2)
              (λ t k, t !! k.1 ≫= (.!! k.2)) key (λ r, r !! "demand") ∅
              (body_silent_eq _ demand_body_silent)) with (rows := df) (tr := tr) (t := table)
    as [_ Hwins]; [done| |done|].
  - clear. intros t row t'. rewrite demand_body_eq. cbn [snd]. unfold key.
    destruct (row !! "product_id") as [a|], (row !! "week_id") as [b|],
      (row !! "demand") as [v|]; try done.
    intros [= <-]. exists (a, b), v. split_and!; [done..|].
    intros [a' b']. cbn [fst snd]. rewrite lookup_put_last.
    repeat case_decide; try done; congruence.
  - rewrite (Hwins (product, week) v).
    split; intros (r & Hlast & Hval); exists r; (split; [|done]);
      revert Hlast; apply last_row_with_ext; clear; intros r; unfold key;
      destruct (r !! "product_id"), (r !! "week_id"); cbn; intuition congruence.
Qed.

Lemma transition_loop_first (df : DataFrame) (tr : list Event)
    (table : gmap cell (gmap (cell * cell) cell)) :
  for_rows df transition_body ∅ = (tr, inr table) →
  ∀ m f o v,
    table !! m ≫= (.!! (f, o)) = Some v ↔
    ∃ r, first_row_with (λ r, r !! "machine_Id" = Some m ∧ r !! "from" = Some f
                              ∧ r !! "to" = Some o) df r
         ∧ r !! "trans_time_days" = Some v.
Proof.
  intros Hrows m f o v.
  pose (key := λ r : Series,
    a ← r !! "machine_Id"; b ← r !! "from"; c ← r !! "to"; Some (a, (b, c))).
  destruct (first_write_wins transition_body (λ t r, (transition_body t r).2)
              (λ t k, t !! k.1 ≫= (.!! k.2)) key (λ r, r !! "trans_time_days") ∅
              (body_silent_eq _ transition_body_silent)) with (rows := df) (tr := tr) (t := table)
    as [_ Hwins]; [done| |done|].
  - clear. intros t row t'. rewrite transition_body_eq. cbn [snd]. unfold key.
    destruct (row !! "machine_Id") as [a|], (row !! "from") as [b|],
      (row !! "to") as [c|], (row !! "trans_time_days") as [v|]; try done.
    intros [= <-]. exists (a, (b, c)), v. split_and!; [done..|].
    intros [a' [b' c']]. cbn [fst snd]. rewrite lookup_put_first.
    repeat case_decide; try done; congruence.
  - rewrite (Hwins (m, (f, o)) v).
    split; intros (r & Hfirst & Hval); exists r; (split; [|done]);
      revert Hfirst; apply first_row_with_ext; clear; intros r; unfold key;
      destruct (r !! "machine_Id"), (r !! "from"), (r !! "to"); cbn; intuition congruence.
Qed.

Lemma first_row_with_elem (P : Series → Prop) rows r : first_row_with P rows r → r ∈ rows ∧ P r.
Proof. intros (i & Hi & HP & _). split; [by eapply list_elem_of_lookup_2|done]. Qed.

Lemma last_row_with_elem (P : Series → Prop) rows r : last_row_with P rows r → r ∈ rows ∧ P r.
Proof. intros (i & Hi & HP & _). split; [by eapply list_elem_of_lookup_2|done]. Qed.

(** Two nested tables without empty inner dictionaries are equal when
    they answer every two-level lookup alike. *)
Lemma nested_map_eq {K2 V} `{Countable K2} (t t' : gmap cell (gmap K2 V)) :
  (∀ k x, t !! k = Some x → ∃ a b, x !! a = Some b) →
  (∀ k x, t' !! k = Some x → ∃ a b, x !! a = Some b) →
  (∀ a b, t !! a ≫= (.!! b) = t' !! a ≫= (.!! b)) →
  t = t'.
Proof.
  intros Hinh Hinh' Hread. apply map_eq. intros a.
  destruct (t !! a) as [x|] eqn:Ht, (t' !! a) as [x'|] eqn:Ht'; [| | |done].
  - f_equal. apply map_eq. intros b. specialize (Hread a b). by rewrite Ht, Ht' in Hread.
  - destruct (Hinh a x Ht) as (b & v & Hb). specialize (Hread a b).
    rewrite Ht, Ht' in Hread. cbn in Hread. congruence.
  - destruct (Hinh' a x' Ht') as (b & v & Hb). specialize (Hread a b).
    rewrite Ht, Ht' in Hread. cbn in Hread. congruence.
Qed.

Section RowSet.

Context {K2 : Type} `{Countable K2}.
Context (body : gmap cell (gmap K2 cell) → Series → M (gmap cell (gmap K2 cell))).
Context (key : Series → option (cell * K2)) (val : Series → option cell) (labels : list string).

Let read (t : gmap cell (gmap K2 cell)) (k : cell * K2) : option cell := t !! k.1 ≫= (.!! k.2).

Hypothesis loop_char : ∀ rows tr t,
  for_rows rows body ∅ = (tr, inr t) →
  ∀ k v, read t k = Some v → ∃ r, r ∈ rows ∧ key r = Some k ∧ val r = Some v.
Hypothesis loop_keys : ∀ rows tr t,
  for_rows rows body ∅ = (tr, inr t) →
  ∀ k, is_Some (read t k) ↔ ∃ r, r ∈ rows ∧ key r = Some k.
Hypothesis loop_inhabited : ∀ rows tr t,
  for_rows rows body ∅ = (tr, inr t) → ∀ k x, t !! k = Some x → ∃ a b, x !! a = Some b.
Hypothesis loop_ok : ∀ rows,
  (∃ t, for_rows rows body ∅ = ([], inr t)) ↔ Forall (has_columns labels) rows.

Lemma row_set_determines_table (rows rows' : DataFrame) t :
  for_rows rows body ∅ = ([], inr t) →
  (∀ r1 r2, r1 ∈ rows → r2 ∈ rows → is_Some (key r1) → key r1 = key r2 → val r1 = val r2) →
  (∀ r, r ∈ rows ↔ r ∈ rows') →
  for_rows rows' body ∅ = ([], inr t).
Proof.
  intros Hrun Hagree Hsame.
  assert (Forall (has_columns labels) rows') as Hcols.
  { assert (Forall (has_columns labels) rows) as Hall by (apply loop_ok; eauto).
    rewrite Forall_forall in *. intros r Hr. by apply Hall, Hsame. }
  apply loop_ok in Hcols as [t' Hrun']. rewrite Hrun'. do 2 f_equal.
  apply nested_map_eq; [by eapply loop_inhabited..|]. intros a b.
  change (read t' (a, b) = read t (a, b)).
  destruct (read t (a, b)) as [v|] eqn:Hread.
  - destruct (loop_char _ _ _ Hrun _ _ Hread) as (r & Hr & Hk & Hv).
    destruct (proj2 (loop_keys _ _ _ Hrun' (a, b))) as [v' Hread']; [exists r; by rewrite <- Hsame|].
    destruct (loop_char _ _ _ Hrun' _ _ Hread') as (r' & Hr' & Hk' & Hv').
    rewrite Hread'. rewrite <- Hv, <- Hv'. symmetry. apply Hagree; [done|by apply Hsame| |congruence].
    by rewrite Hk.
  - destruct (read t' (a, b)) as [v'|] eqn:Hread'; [|done].
    destruct (loop_char _ _ _ Hrun' _ _ Hread') as (r' & Hr' & Hk' & _).
    destruct (proj2 (loop_keys _ _ _ Hrun (a, b))) as [v Hv]; [exists r'; by rewrite Hsame|].
    congruence.
Qed.

End RowSet.

Lemma put_last_present {K2 V} `{Countable K2} (k1 : cell) (k2 : K2) (v : V) t (k' : cell * K2) :
  is_Some (put_last k1 k2 v t !! k'.1 ≫= (.!! k'.2)) ↔
  k' = (k1, k2) ∨ is_Some (t !! k'.1 ≫= (.!! k'.2)).
Proof.
  destruct k' as [a b]. cbn [fst snd]. rewrite lookup_put_last. case_decide as Hk.
  - split; [by left|by eexists].
  - split; [by right|]. by intros [?|?].
Qed.

Lemma put_first_present {K2 V} `{Countable K2} (k1 : cell) (k2 : K2) (v : V) t (k' : cell * K2) :
  is_Some (put_first k1 k2 v t !! k'.1 ≫= (.!! k'.2)) ↔
  k' = (k1, k2) ∨ is_Some (t !! k'.1 ≫= (.!! k'.2)).
Proof.
  destruct k' as [a b]. cbn [fst snd]. rewrite lookup_put_first. case_decide as Hk.
  - split; [by left|by eexists].
  - split; [by right|]. by intros [?|?].
Qed.

Lemma demand_loop_keys rows tr (t : gmap cell (gmap cell cell)) :
  for_rows rows demand_body ∅ = (tr, inr t) →
  ∀ k, is_Some (t !! k.1 ≫= (.!! k.2)) ↔ ∃ r, r ∈ rows ∧ demand_key r = Some k.
Proof.
  apply (for_rows_keys demand_body (λ t k, is_Some (t !! k.1 ≫= (.!! k.2)))).
  - apply demand_body_silent.
  - intros k. rewrite lookup_empty. by intros [? ?].
  - intros t1 row t2. rewrite demand_body_eq. cbn [snd]. unfold demand_key.
    destruct (row !! "product_id") as [a|], (row !! "week_id") as [b|], (row !! "demand");
      try done.
    intros [= <-]. exists (a, b). split; [done|]. intros k'. apply put_last_present.
Qed.

Lemma capacity_loop_keys rows tr (t : gmap cell (gmap cell cell)) :
  for_rows rows capacity_body ∅ = (tr, inr t) →
  ∀ k, is_Some (t !! k.1 ≫= (.!! k.2)) ↔ ∃ r, r ∈ rows ∧ capacity_key r = Some k.
Proof.
  apply (for_rows_keys capacity_body (λ t k, is_Some (t !! k.1 ≫= (.!! k.2)))).
  - apply capacity_body_silent.
  - intros k. rewrite lookup_empty. by intros [? ?].
  - intros t1 row t2. rewrite capacity_body_eq. cbn [snd]. unfold capacity_key.
    destruct (row !! "machine_id") as [a|], (row !! "product_id") as [b|], (row !! "week_cap");
      try done.
    intros [= <-]. exists (a, b). split; [done|]. intros k'. apply put_last_present.
Qed.

Lemma transition_loop_keys (rows : DataFrame) (tr : list Event) (t : gmap cell (gmap (cell * cell) cell)) :
  for_rows rows transition_body ∅ = (tr, inr t) →
  ∀ k, is_Some (t !! k.1 ≫= (.!! k.2)) ↔ ∃ r, r ∈ rows ∧ transition_key r = Some k.
Proof.
  apply (for_rows_keys transition_body (λ t k, is_Some (t !! k.1 ≫= (.!! k.2)))).
  - apply transition_body_silent.
  - intros k. rewrite lookup_empty. by intros [? ?].
  - intros t1 row t2. rewrite transition_body_eq. cbn [snd]. unfold transition_key.
    destruct (row !! "machine_Id") as [a|], (row !! "from") as [b|], (row !! "to") as [c|],
      (row !! "trans_time_days"); try done.
    intros [= <-]. exists (a, (b, c)). split; [done|]. intros k'. apply put_first_present.
Qed.

Lemma demand_loop_inhabited rows tr (t : gmap cell (gmap cell cell)) :
  for_rows rows demand_body ∅ = (tr, inr t) → ∀ k x, t !! k = Some x → ∃ a b, x !! a = Some b.
Proof.
  apply for_rows_inhabited; [apply demand_body_silent|].
  intros t1 row t2. rewrite demand_body_eq. cbn [snd].
  destruct (row !! "product_id"), (row !! "week_id"), (row !! "demand"); try done.
  intros [= <-]. apply put_last_writes.
Qed.

Lemma capacity_loop_inhabited rows tr (t : gmap cell (gmap cell cell)) :
  for_rows rows capacity_body ∅ = (tr, inr t) → ∀ k x, t !! k = Some x → ∃ a b, x !! a = Some b.
Proof.
  apply for_rows_inhabited; [apply capacity_body_silent|].
  intros t1 row t2. rewrite capacity_body_eq. cbn [snd].
  destruct (row !! "machine_id"), (row !! "product_id"), (row !! "week_cap"); try done.
  intros [= <-]. apply put_last_writes.
Qed.

Lemma transition_loop_inhabited (rows : DataFrame) (tr : list Event) (t : gmap cell (gmap (cell * cell) cell)) :
  for_rows rows transition_body ∅ = (tr, inr t) → ∀ k x, t !! k = Some x → ∃ a b, x !! a = Some b.
Proof.
  apply for_rows_inhabited; [apply transition_body_silent|].
  intros t1 row t2. rewrite transition_body_eq. cbn [snd].
  destruct (row !! "machine_Id"), (row !! "from"), (row !! "to"), (row !! "trans_time_days");
    try done.
  intros [= <-]. apply put_first_writes.
Qed.

Lemma demand_key_Some r a b :
  demand_key r = Some (a, b) ↔ r !! "product_id" = Some a ∧ r !! "week_id" = Some b.
Proof.
  unfold demand_key. destruct (r !! "product_id"), (r !! "week_id"); cbn; intuition congruence.
Qed.

Lemma capacity_key_Some r a b :
  capacity_key r = Some (a, b) ↔ r !! "machine_id" = Some a ∧ r !! "product_id" = Some b.
Proof.
  unfold capacity_key. destruct (r !! "machine_id"), (r !! "product_id"); cbn;
    intuition congruence.
Qed.

Lemma transition_key_Some r a b c :
  transition_key r = Some (a, (b, c)) ↔
  r !! "machine_Id" = Some a ∧ r !! "from" = Some b ∧ r !! "to" = Some c.
Proof.
  unfold transition_key. destruct (r !! "machine_Id"), (r !! "from"), (r !! "to"); cbn;
    intuition congruence.
Qed.

Lemma demand_same_rows (rows rows' : DataFrame) t :
  for_rows rows demand_body ∅ = ([], inr t) →
  (∀ r1 r2, r1 ∈ rows → r2 ∈ rows →
     r1 !! "product_id" = r2 !! "product_id" → r1 !! "week_id" = r2 !! "week_id" →
     r1 !! "demand" = r2 !! "demand") →
  (∀ r, r ∈ rows ↔ r ∈ rows') →
  for_rows rows' demand_body ∅ = ([], inr t).
Proof.
  intros Hrun Hagree Hsame.
  eapply (row_set_determines_table demand_body demand_key (λ r, r !! "demand") demand_columns);
    [| | | |exact Hrun| |exact Hsame].
  - intros rows0 tr t0 Hrun0 [a b] v Hread.
    apply (demand_loop_last _ _ _ Hrun0) in Hread as (r & [Hr Hk]%last_row_with_elem & Hv).
    exists r. by rewrite demand_key_Some.
  - apply demand_loop_keys.
  - apply demand_loop_inhabited.
  - intros rows0. apply column_loop_ok; [apply demand_body_columns|apply demand_body_complete].
  - intros r1 r2 Hr1 Hr2 [[a b] Hk1] Hk. rewrite Hk1 in Hk. symmetry in Hk.
    apply demand_key_Some in Hk1 as [? ?], Hk as [? ?]. apply Hagree; congruence.
Qed.

Lemma capacity_same_rows (rows rows' : DataFrame) t :
  for_rows rows capacity_body ∅ = ([], inr t) →
  (∀ r1 r2, r1 ∈ rows → r2 ∈ rows →
     r1 !! "machine_id" = r2 !! "machine_id" → r1 !! "product_id" = r2 !! "product_id" →
     r1 !! "week_cap" = r2 !! "week_cap") →
  (∀ r, r ∈ rows ↔ r ∈ rows') →
  for_rows rows' capacity_body ∅ = ([], inr t).
Proof.
  intros Hrun Hagree Hsame.
  eapply (row_set_determines_table capacity_body capacity_key (λ r, r !! "week_cap")
            capacity_columns); [| | | |exact Hrun| |exact Hsame].
  - intros rows0 tr t0 Hrun0 [a b] v Hread.
    apply (capacity_loop_last _ _ _ Hrun0) in Hread as (r & [Hr Hk]%last_row_with_elem & Hv).
    exists r. by rewrite capacity_key_Some.
  - apply capacity_loop_keys.
  - apply capacity_loop_inhabited.
  - intros rows0. apply column_loop_ok; [apply capacity_body_columns|apply capacity_body_complete].
  - intros r1 r2 Hr1 Hr2 [[a b] Hk1] Hk. rewrite Hk1 in Hk. symmetry in Hk.
    apply capacity_key_Some in Hk1 as [? ?], Hk as [? ?]. apply Hagree; congruence.
Qed.

Lemma transition_same_rows (rows rows' : DataFrame) t :
  for_rows rows transition_body ∅ = ([], inr t) →
  (∀ r1 r2, r1 ∈ rows → r2 ∈ rows →
     r1 !! "machine_Id" = r2 !! "machine_Id" → r1 !! "from" = r2 !! "from" →
     r1 !! "to" = r2 !! "to" → r1 !! "trans_time_days" = r2 !! "trans_time_days") →
  (∀ r, r ∈ rows ↔ r ∈ rows') →
  for_rows rows' transition_body ∅ = ([], inr t).
Proof.
  intros Hrun Hagree Hsame.
  eapply (row_set_determines_table transition_body transition_key
            (λ r, r !! "trans_time_days") transition_columns); [| | | |exact Hrun| |exact Hsame].
  - intros rows0 tr t0 Hrun0 [a [b c]] v Hread.
    apply (transition_loop_first _ _ _ Hrun0) in Hread
      as (r & [Hr Hk]%first_row_with_elem & Hv).
    exists r. by rewrite transition_key_Some.
  - apply transition_loop_keys.
  - apply transition_loop_inhabited.
  - intros rows0.
    apply column_loop_ok; [apply transition_body_columns|apply transition_body_complete].
  - intros r1 r2 Hr1 Hr2 [[a [b c]] Hk1] Hk. rewrite Hk1 in Hk. symmetry in Hk.
    apply transition_key_Some in Hk1 as (? & ? & ?), Hk as (? & ? & ?). apply Hagree; congruence.
Qed.

(** X5.  When any two rows of the file that share a key also share the
    value, the table depends on the set of rows only: a file with the same
    rows in any order, with rows repeated or with repetitions removed,
    loads to the same [demand_data], [capacity_data] or [transtime_data]. *)
Theorem agreeing_duplicates_make_order_irrelevant (w : World) (p : Path) :
  (∀ tr ld, DemandLoader_init w p = (tr, inr ld) →
     ∃ df, demand_df w p = (tr, inr df) ∧
       ((∀ r1 r2, r1 ∈ df → r2 ∈ df →
           r1 !! "product_id" = r2 !! "product_id" → r1 !! "week_id" = r2 !! "week_id" →
           r1 !! "demand" = r2 !! "demand") →
        ∀ df', (∀ r, r ∈ df ↔ r ∈ df') →
               for_rows df' demand_body ∅ = ([], inr (demand_data ld)))) ∧
  (∀ tr ld, CapacityLoader_init w p = (tr, inr ld) →
     ∃ df, capacity_df w p = (tr, inr df) ∧
       ((∀ r1 r2, r1 ∈ df → r2 ∈ df →
           r1 !! "machine_id" = r2 !! "machine_id" → r1 !! "product_id" = r2 !! "product_id" →
           r1 !! "week_cap" = r2 !! "week_cap") →
        ∀ df', (∀ r, r ∈ df ↔ r ∈ df') →
               for_rows df' capacity_body ∅ = ([], inr (capacity_data ld)))) ∧
  (∀ tr ld, TranstimeLoader_init w p = (tr, inr ld) →
     ∃ df, transition_df w p = (tr, inr df) ∧
       ((∀ r1 r2, r1 ∈ df → r2 ∈ df →
           r1 !! "machine_Id" = r2 !! "machine_Id" → r1 !! "from" = r2 !! "from" →
           r1 !! "to" = r2 !! "to" → r1 !! "trans_time_days" = r2 !! "trans_time_days") →
        ∀ df', (∀ r, r ∈ df ↔ r ∈ df') →
               for_rows df' transition_body ∅ = ([], inr (transtime_data ld)))).
Proof.
  split_and!; intros tr ld.
  - rewrite DemandLoader_init_eq.
    intros (df & table & Hframe & Hrows & ->)%construct_ok; [|apply demand_body_silent].
    exists df. split; [done|]. intros Hagree df' Hsame. by eapply demand_same_rows.
  - rewrite CapacityLoader_init_eq.
    intros (df & table & Hframe & Hrows & ->)%construct_ok; [|apply capacity_body_silent].
    exists df. split; [done|]. intros Hagree df' Hsame. by eapply capacity_same_rows.
  - rewrite TranstimeLoader_init_eq.
    intros (df & table & Hframe & Hrows & ->)%construct_ok; [|apply transition_body_silent].
    exists df. split; [done|]. intros Hagree df' Hsame. by eapply transition_same_rows.
Qed.

Lemma agreeing_duplicates_make_order_irrelevant_witness :
  for_rows (reverse capacity_rows) capacity_body ∅ = ([], inr capacity_table).
Proof.
  destruct (agreeing_duplicates_make_order_irrelevant
              (table_world capacity_xlsx capacity_rows) capacity_xlsx) as (_ & Hcap & _).
  destruct (Hcap [ReadExcel capacity_xlsx] (mkCapacityLoader capacity_table)
              ltac:(vm_compute; reflexivity)) as (df & Hdf & Hsame).
  assert (capacity_df (table_world capacity_xlsx capacity_rows) capacity_xlsx
          = ([ReadExcel capacity_xlsx], inr capacity_rows)) as Hread
    by (vm_compute; reflexivity).
  assert (df = capacity_rows) as -> by congruence.
  apply Hsame.
  - intros r1 r2 Hr1 Hr2.
    repeat (apply elem_of_cons in Hr1 as [-> | Hr1]); [| |by apply elem_of_nil in Hr1];
      (repeat (apply elem_of_cons in Hr2 as [-> | Hr2]); [| |by apply elem_of_nil in Hr2]);
      intros Hm Hp; first [reflexivity | vm_compute in Hp; discriminate Hp].
  - intros r. by rewrite elem_of_reverse.
Defined.

(** ** Rows added to a file *)

Lemma first_row_with_app_l (P : Series → Prop) (rows extra : DataFrame) r :
  first_row_with P rows r → first_row_with P (rows ++ extra) r.
Proof.
  intros (i & Hi & HP & Hmin). exists i. split_and!; [by apply lookup_app_l_Some|done|].
  intros j r' Hj HP'. destruct (decide (j < length rows)) as [Hlt|Hge].
  - rewrite lookup_app_l in Hj by done. eauto.
  - apply lookup_lt_Some in Hi. lia.
Qed.

Lemma last_row_with_app_r (P : Series → Prop) (before rows : DataFrame) r :
  last_row_with P rows r → last_row_with P (before ++ rows) r.
Proof.
  intros (i & Hi & HP & Hmax). exists (length before + i). split_and!.
  - rewrite lookup_app_r by lia. by replace (length before + i - length before) with i by lia.
  - done.
  - intros j r' Hj HP'. destruct (decide (j < length before)) as [Hlt|Hge]; [lia|].
    rewrite lookup_app_r in Hj by lia. specialize (Hmax _ _ Hj HP'). lia.
Qed.

(** X6.  Rows appended to a transition file never change an entry the
    file already gave: if the longer file loads, so does the shorter one,
    and every [transtime_data[m][(f, t)]] of the shorter file has the same
    value in the table of the longer one. *)
Theorem transtime_append_keeps_entries (w w' : World) (p p' : Path) tr tr'
    (df extra : DataFrame) (ld' : TranstimeLoader) :
  transition_df w p = (tr, inr df) →
  transition_df w' p' = (tr', inr (df ++ extra)) →
  TranstimeLoader_init w' p' = (tr', inr ld') →
  ∃ ld, TranstimeLoader_init w p = (tr, inr ld) ∧
    ∀ m f t v, transtime_data ld !! m ≫= (.!! (f, t)) = Some v →
               transtime_data ld' !! m ≫= (.!! (f, t)) = Some v.
Proof.
  intros Hdf Hdf'. rewrite !TranstimeLoader_init_eq.
  intros (df2 & t' & Hframe' & Hrows' & ->)%construct_ok; [|apply transition_body_silent].
  assert (df2 = df ++ extra) as -> by congruence.
  assert (Forall (has_columns transition_columns) (df ++ extra)) as [Hcols _]%Forall_app.
  { eapply column_loop_ok;
      [apply transition_body_columns|apply transition_body_complete|by eexists]. }
  eapply (column_loop_ok transition_body) in Hcols as [t Hrows];
    [|apply transition_body_columns|apply transition_body_complete].
  exists (mkTranstimeLoader t). split.
  - apply construct_ok; [apply transition_body_silent|]. eauto.
  - intros m f o v. cbn [transtime_data].
    rewrite (transition_loop_first _ _ _ Hrows), (transition_loop_first _ _ _ Hrows').
    intros (r & Hfirst & Hv). exists r. split; [by apply first_row_with_app_l|done].
Qed.

Lemma transtime_append_keeps_entries_witness :
  ∃ ld, TranstimeLoader_init transition_world transition_csv = ([ReadCsv transition_csv], inr ld) ∧
    ∀ m f t v, transtime_data ld !! m ≫= (.!! (f, t)) = Some v →
               transtime_data
                 (mkTranstimeLoader
                    (<[ cs "machine_3" := {[ (cs "product_2", cs "product_1") := CInt 9 ]} ]>
                       transition_table)) !! m ≫= (.!! (f, t)) = Some v.
Proof.
  apply (transtime_append_keeps_entries
           transition_world (table_world times_XLSX (transition_rows ++ transition_rows_more))
           transition_csv times_XLSX [ReadCsv transition_csv] [ReadExcel times_XLSX]
           transition_rows transition_rows_more); vm_compute; reflexivity.
Defined.

(** X7.  Rows put in front of a demand file never show through an entry
    the file itself gives: if the longer file loads, so does the shorter
    one, and every [demand_data[p][w]] of the shorter file has the same
    value in the table of the longer one. *)
Theorem demand_later_rows_prevail (w w' : World) (p p' : Path) tr tr'
    (older df : DataFrame) (ld' : DemandLoader) :
  demand_df w p = (tr, inr df) →
  demand_df w' p' = (tr', inr (older ++ df)) →
  DemandLoader_init w' p' = (tr', inr ld') →
  ∃ ld, DemandLoader_init w p = (tr, inr ld) ∧
    ∀ product week v, demand_data ld !! product ≫= (.!! week) = Some v →
                      demand_data ld' !! product ≫= (.!! week) = Some v.
Proof.
  intros Hdf Hdf'. rewrite !DemandLoader_init_eq.
  intros (df2 & t' & Hframe' & Hrows' & ->)%construct_ok; [|apply demand_body_silent].
  assert (df2 = older ++ df) as -> by congruence.
  assert (Forall (has_columns demand_columns) (older ++ df)) as [_ Hcols]%Forall_app.
  { eapply column_loop_ok; [apply demand_body_columns|apply demand_body_complete|by eexists]. }
  eapply (column_loop_ok demand_body) in Hcols as [t Hrows];
    [|apply demand_body_columns|apply demand_body_complete].
  exists (mkDemandLoader t). split.
  - apply construct_ok; [apply demand_body_silent|]. eauto.
  - intros product week v. cbn [demand_data].
    rewrite (demand_loop_last _ _ _ Hrows), (demand_loop_last _ _ _ Hrows').
    intros (r & Hlast & Hv). exists r. split; [by apply last_row_with_app_r|done].
Qed.

Lemma demand_later_rows_prevail_witness :
  ∃ ld, DemandLoader_init demand_world demand_xlsx = ([ReadExcel demand_xlsx], inr ld) ∧
    ∀ product week v,
      demand_data ld !! product ≫= (.!! week) = Some v →
      demand_data
        (mkDemandLoader
           {[ cs "product_1" := {[ cs "week_1" := CInt 10; cs "week_2" := CInt 20 ]};
              cs "product_2" := {[ cs "week_1" := CInt 5 ]};
              cs "product_3" := {[ cs "week_1" := CInt 1 ]} ]}) !! product ≫= (.!! week)
      = Some v.
Proof.
  apply (demand_later_rows_prevail
           demand_world (table_world demand_xlsx (demand_rows_old ++ demand_rows))
           demand_xlsx demand_xlsx [ReadExcel demand_xlsx] [ReadExcel demand_xlsx]
           demand_rows_old demand_rows); vm_compute; reflexivity.
Defined.

(** ** The validator and the loaders *)




Lemma reader_exists_error w parse p e :
  is_Some (fs w p) → reader w parse p = inl e → e = ParserError.
Proof.
  intros [content Hc]. unfold reader. rewrite Hc. destruct (parse content); [done|].
  by intros [= <-].
Qed.


(** Failures of a construction whose frame comes from a reader, on a path
    that exists. *)
Lemma construct_existing_error {T L} w (read : Path → M DataFrame) ev parse
    (body : T → Series → M T) (mk : T → L) (t0 : T) p tr e :
  (∀ t row, (body t row).1 = []) →
  (∀ t row tr e, body t row = (tr, inl e) → is_KeyError e) →
  read p = ([ev], reader w parse p) →
  is_Some (fs w p) →
  construct (read p) body mk t0 = (tr, inl e) →
  e = ParserError ∨ is_KeyError e.
Proof.
  intros Hsil Herr Hread Hex [Hframe | (df & Hframe & Hrows)]%construct_error; [| |done].
  - rewrite Hread in Hframe. injection Hframe as _ Hr. left. by eapply reader_exists_error.
  - right. by eapply for_rows_error.
Qed.

(** X9.  On a path that [validate_file_path] has let through, a
    construction can only fail inside the parser or on a missing column:
    never with [FileNotFoundError], never with the unsupported-format
    [ValueError]. *)
Theorem validated_path_limits_failures (w : World) (p : Path) tr0 (validated : Path) :
  validate_file_path w p = (tr0, inr validated) →
  ∀ tr e,
    DemandLoader_init w validated = (tr, inl e) ∨
    CapacityLoader_init w validated = (tr, inl e) ∨
    TranstimeLoader_init w validated = (tr, inl e) ∨
    DowntimeLoader_init w validated = (tr, inl e) →
    e = ParserError ∨ is_KeyError e.
Proof.
  intros (_ & -> & Hex & Hsuf)%validate_file_path_ok tr e.
  rewrite DemandLoader_init_eq, CapacityLoader_init_eq, TranstimeLoader_init_eq,
    DowntimeLoader_init_eq.
  intros [Hrun | [Hrun | [Hrun | Hrun]]].
  - destruct (demand_df_cases w p) as [Heq | Heq]; rewrite Heq in Hrun;
      eapply construct_existing_error in Hrun;
      first [done | apply demand_body_silent | apply demand_body_error].
  - destruct (capacity_df_cases w p) as [Heq | Heq]; rewrite Heq in Hrun;
      eapply construct_existing_error in Hrun;
      first [done | apply capacity_body_silent | apply capacity_body_error].
  - destruct (transition_df_cases w p) as [Heq | [Heq | [Hno _]]]; [| |done];
      rewrite Heq in Hrun; eapply construct_existing_error in Hrun;
      first [done | apply transition_body_silent | apply transition_body_error].
  - destruct (downtime_df_cases w p) as [Heq | [Heq | [Hno _]]]; [| |done];
      rewrite Heq in Hrun; eapply construct_existing_error in Hrun;
      first [done | apply downtime_body_silent | apply downtime_body_error].
Qed.

Lemma validated_path_limits_failures_witness :
  validate_file_path (table_world demand_xlsx demand_rows_no_week) demand_xlsx
    = ([Exists demand_xlsx], inr demand_xlsx)
  ∧ (KeyError (CStr "week_id") = ParserError ∨ is_KeyError (KeyError (CStr "week_id"))).
Proof.
  assert (validate_file_path (table_world demand_xlsx demand_rows_no_week) demand_xlsx
          = ([Exists demand_xlsx], inr demand_xlsx)) as Hvalid by (vm_compute; reflexivity).
  split; [exact Hvalid|].
  apply (validated_path_limits_failures _ _ _ _ Hvalid [ReadExcel demand_xlsx]).
  left. vm_compute. reflexivity.
Defined.




(** ** The script *)

Lemma read_excel_ok w p df :
  reader w (parse_excel w) p = inr df ↔
  ∃ content, fs w p = Some content ∧ parse_excel w content = Some df.
Proof.
  unfold reader. destruct (fs w p) as [content|].
  - destruct (parse_excel w content) as [df'|] eqn:Hparse.
    + split; [intros [= <-]; eauto|]. intros (c & [= <-] & Hp). congruence.
    + split; [done|]. intros (c & [= <-] & Hp). congruence.
  - split; [done|]. by intros (c & [=] & _).
Qed.

Section Spreadsheet.

Context {T L : Type} (body : T → Series → M T) (labels : list string) (mk : T → L) (t0 : T).
Hypothesis body_columns : ∀ t row,
  body t row = ([], match first_missing labels row with
                    | Some l => inl (KeyError (CStr l))
                    | None => (body t row).2
                    end).
Hypothesis body_complete : ∀ t row,
  first_missing labels row = None → ∃ t', (body t row).2 = inr t'.

(** A construction that reads its frame with [pd.read_excel]. *)
Lemma construct_excel (w : World) (p : Path) :
  (construct (read_excel w p) body mk t0).1 = [ReadExcel p] ∧
  ((∃ ld, (construct (read_excel w p) body mk t0).2 = inr ld) ↔ loadable w p labels).
Proof.
  split.
  - rewrite construct_trace; [done|]. intros t row. by rewrite body_columns.
  - pose proof (column_construct_ok body labels mk t0 body_columns body_complete
                  (read_excel w p)) as Hok.
    unfold loadable. split.
    + intros [ld Hld].
      destruct (proj1 Hok) as (tr & df & Hframe & Hcols).
      { destruct (construct _ _ _ _) as [tr r]. cbn in Hld. subst r. eauto. }
      unfold read_excel in Hframe. injection Hframe as _ Hr.
      apply read_excel_ok in Hr as (content & Hc & Hp). eauto 6.
    + intros (content & df & Hc & Hp & Hcols).
      destruct (proj2 Hok) as (tr & ld & Hrun).
      { exists [ReadExcel p], df. split; [|done]. unfold read_excel. f_equal.
        apply read_excel_ok. eauto. }
      exists ld. by rewrite Hrun.
Qed.

End Spreadsheet.

Lemma demand_outcome w :
  (DemandLoader_init w demand_xlsx).1 = [ReadExcel demand_xlsx] ∧
  ((∃ ld, (DemandLoader_init w demand_xlsx).2 = inr ld) ↔ loadable w demand_xlsx demand_columns).
Proof.
  rewrite DemandLoader_init_eq.
  replace (demand_df w demand_xlsx) with (read_excel w demand_xlsx) by done.
  apply construct_excel; [apply demand_body_columns|apply demand_body_complete].
Qed.

Lemma capacity_outcome w :
  (CapacityLoader_init w capacity_xlsx).1 = [ReadExcel capacity_xlsx] ∧
  ((∃ ld, (CapacityLoader_init w capacity_xlsx).2 = inr ld) ↔
   loadable w capacity_xlsx capacity_columns).
Proof.
  rewrite CapacityLoader_init_eq.
  replace (capacity_df w capacity_xlsx) with (read_excel w capacity_xlsx) by done.
  apply construct_excel; [apply capacity_body_columns|apply capacity_body_complete].
Qed.

Lemma transtime_outcome w :
  (TranstimeLoader_init w transition_xlsx).1 = [ReadExcel transition_xlsx] ∧
  ((∃ ld, (TranstimeLoader_init w transition_xlsx).2 = inr ld) ↔
   loadable w transition_xlsx transition_columns).
Proof.
  rewrite TranstimeLoader_init_eq.
  replace (transition_df w transition_xlsx) with (read_excel w transition_xlsx) by done.
  apply construct_excel; [apply transition_body_columns|apply transition_body_complete].
Qed.

Lemma downtime_outcome w :
  (DowntimeLoader_init w downtime_xlsx).1 = [ReadExcel downtime_xlsx] ∧
  ((∃ ld, (DowntimeLoader_init w downtime_xlsx).2 = inr ld) ↔
   loadable w downtime_xlsx downtime_columns).
Proof.
  rewrite DowntimeLoader_init_eq.
  replace (downtime_df w downtime_xlsx) with (read_excel w downtime_xlsx) by done.
  apply construct_excel; [apply downtime_body_columns|apply downtime_body_complete].
Qed.

(** X11.  The script runs to its end exactly when each of its four
    spreadsheets exists, is parsed by [pd.read_excel], and has the
    loader's columns in every row. *)
Theorem main_completes_iff_loadable (w : World) :
  (main w).2 = None ↔
  loadable w demand_xlsx demand_columns ∧ loadable w capacity_xlsx capacity_columns ∧
  loadable w transition_xlsx transition_columns ∧ loadable w downtime_xlsx downtime_columns.
Proof.
  destruct (demand_outcome w) as [_ <-], (capacity_outcome w) as [_ <-],
    (transtime_outcome w) as [_ <-], (downtime_outcome w) as [_ <-].
  unfold main.
  destruct (DemandLoader_init w demand_xlsx) as [t1 [e1|d]]; cbn [snd].
  { split; [done|]. by intros [[? [=]] _]. }
  destruct (CapacityLoader_init w capacity_xlsx) as [t2 [e2|c]]; cbn [snd].
  { split; [done|]. by intros (_ & [? [=]] & _). }
  destruct (TranstimeLoader_init w transition_xlsx) as [t3 [e3|t]]; cbn [snd].
  { split; [done|]. by intros (_ & _ & [? [=]] & _). }
  destruct (DowntimeLoader_init w downtime_xlsx) as [t4 [e4|dt]]; cbn [snd].
  { split; [done|]. by intros (_ & _ & _ & [? [=]]). }
  split; [|done]. intros _. split_and!; by eexists.
Qed.

(** X12.  The script stops at the first construction that fails.  Its
    outside calls are a non-empty initial part of the four
    [pd.read_excel] calls in source order, and never anything else.  When
    it ends normally all four constructions have succeeded and it has
    printed their four tables, in order, followed by [hi].  When it ends
    in an exception, that exception is the one of the first construction
    that failed; it has printed the tables of the constructions before
    that one, in order, and nothing else. *)
Theorem main_stops_at_first_failure (w : World) tr out (r : option exn) :
  main w = (tr, out, r) →
  tr `prefix_of` script_reads ∧ tr ≠ [] ∧
  match r with
  | None =>
      ∃ d c t dt,
        DemandLoader_init w demand_xlsx = ([ReadExcel demand_xlsx], inr d) ∧
        CapacityLoader_init w capacity_xlsx = ([ReadExcel capacity_xlsx], inr c) ∧
        TranstimeLoader_init w transition_xlsx = ([ReadExcel transition_xlsx], inr t) ∧
        DowntimeLoader_init w downtime_xlsx = ([ReadExcel downtime_xlsx], inr dt) ∧
        tr = script_reads ∧
        out = [PrintDemand (demand_data d); PrintCapacity (capacity_data c);
               PrintTranstime (transtime_data t); PrintDowntime (downtime_data dt);
               PrintStr "hi"]
  | Some e =>
      (DemandLoader_init w demand_xlsx = ([ReadExcel demand_xlsx], inl e) ∧
       tr = [ReadExcel demand_xlsx] ∧ out = []) ∨
      (∃ d,
         DemandLoader_init w demand_xlsx = ([ReadExcel demand_xlsx], inr d) ∧
         CapacityLoader_init w capacity_xlsx = ([ReadExcel capacity_xlsx], inl e) ∧
         tr = [ReadExcel demand_xlsx; ReadExcel capacity_xlsx] ∧
         out = [PrintDemand (demand_data d)]) ∨
      (∃ d c,
         DemandLoader_init w demand_xlsx = ([ReadExcel demand_xlsx], inr d) ∧
         CapacityLoader_init w capacity_xlsx = ([ReadExcel capacity_xlsx], inr c) ∧
         TranstimeLoader_init w transition_xlsx = ([ReadExcel transition_xlsx], inl e) ∧
         tr = [ReadExcel demand_xlsx; ReadExcel capacity_xlsx; ReadExcel transition_xlsx] ∧
         out = [PrintDemand (demand_data d); PrintCapacity (capacity_data c)]) ∨
      (∃ d c t,
         DemandLoader_init w demand_xlsx = ([ReadExcel demand_xlsx], inr d) ∧
         CapacityLoader_init w capacity_xlsx = ([ReadExcel capacity_xlsx], inr c) ∧
         TranstimeLoader_init w transition_xlsx = ([ReadExcel transition_xlsx], inr t) ∧
         DowntimeLoader_init w downtime_xlsx = ([ReadExcel downtime_xlsx], inl e) ∧
         tr = script_reads ∧
         out = [PrintDemand (demand_data d); PrintCapacity (capacity_data c);
                PrintTranstime (transtime_data t)])
  end.
Proof.
  destruct (demand_outcome w) as [H1 _], (capacity_outcome w) as [H2 _],
    (transtime_outcome w) as [H3 _], (downtime_outcome w) as [H4 _].
  unfold main, script_reads.
  destruct (DemandLoader_init w demand_xlsx) as [t1 [e1|d]]; cbn [fst] in H1; subst t1.
  { intros [= <- <- <-]. split_and!; [by eexists|done|]. by left. }
  destruct (CapacityLoader_init w capacity_xlsx) as [t2 [e2|c]]; cbn [fst] in H2; subst t2.
  { intros [= <- <- <-]. split_and!; [by eexists|done|]. right. left. by exists d. }
  destruct (TranstimeLoader_init w transition_xlsx) as [t3 [e3|t]]; cbn [fst] in H3; subst t3.
  { intros [= <- <- <-]. split_and!; [by eexists|done|]. right. right. left. by exists d, c. }
  destruct (DowntimeLoader_init w downtime_xlsx) as [t4 [e4|dt]]; cbn [fst] in H4; subst t4.
  { intros [= <- <- <-]. split_and!; [by exists []|done|]. right. right. right.
    by exists d, c, t. }
  intros [= <- <- <-]. split_and!; [by exists []|done|]. by exists d, c, t, dt.
Qed.

(** Without the transition file the script reads three files, prints the
    demand and capacity tables, and ends in the reader's exception. *)
Lemma main_stops_at_first_failure_witness :
  main script_world_no_transition
  = ([ReadExcel demand_xlsx; ReadExcel capacity_xlsx; ReadExcel transition_xlsx],
     [PrintDemand {[ cs "product_1" := {[ cs "week_1" := CInt 10; cs "week_2" := CInt 20 ]};
                     cs "product_2" := {[ cs "week_1" := CInt 5 ]} ]};
      PrintCapacity capacity_table],
     Some (FileNotFoundError transition_xlsx))
  ∧ [ReadExcel demand_xlsx; ReadExcel capacity_xlsx; ReadExcel transition_xlsx]
      `prefix_of` script_reads
  ∧ TranstimeLoader_init script_world_no_transition transition_xlsx
    = ([ReadExcel transition_xlsx], inl (FileNotFoundError transition_xlsx)).
Proof.
  assert (main script_world_no_transition
          = ([ReadExcel demand_xlsx; ReadExcel capacity_xlsx; ReadExcel transition_xlsx],
             [PrintDemand {[ cs "product_1" := {[ cs "week_1" := CInt 10; cs "week_2" := CInt 20 ]};
                             cs "product_2" := {[ cs "week_1" := CInt 5 ]} ]};
              PrintCapacity capacity_table],
             Some (FileNotFoundError transition_xlsx))) as Hrun by (vm_compute; reflexivity).
  split; [exact Hrun|].
  destruct (main_stops_at_first_failure _ _ _ _ Hrun) as (Hprefix & _ & Hcases).
  split; [exact Hprefix|].
  destruct Hcases as [(_ & Htr & _) | [(d & _ & _ & Htr & _) | [(d & c & _ & _ & Hfail & _)
                     | (d & c & t & _ & _ & _ & _ & Htr & _)]]].
  - discriminate Htr.
  - discriminate Htr.
  - exact Hfail.
  - discriminate Htr.
Defined.

Example main_runs_to_the_end :
  main script_world
  = (script_reads,
     [PrintDemand {[ cs "product_1" := {[ cs "week_1" := CInt 10; cs "week_2" := CInt 20 ]};
                     cs "product_2" := {[ cs "week_1" := CInt 5 ]} ]};
      PrintCapacity capacity_table;
      PrintTranstime transition_table;
      PrintDowntime downtime_table;
      PrintStr "hi"],
     None).
Proof. vm_compute. reflexivity. Qed.
